(** * Identity rotation tool: rotation worker, change log, reputation check

  A shallow embedding of [worker.py], [core.py], [database/models.py],
  [database/logging.py] and [network.py], and the properties of the
  rotation retry loop, of the JSON-lines change log and of the reputation
  check that are established on it.

  Conventions.
  - A Python [str] is a list of Unicode code points ([text]); [py "abc"]
    is the literal.  A Python [int] is a [Z].
  - Code that talks to the outside (HTTP, the Tor control port, the clock)
    reads its answers from an oracle [Env], indexed by how many calls of
    that kind were made before; what the code did is recorded in the
    [World] that is threaded through every call.
  - Code that may raise returns [Raised msg], where [msg] is [str(e)]. *)

From Stdlib Require Import ZArith NArith List String Ascii Bool Lia DecimalString.
From stdpp Require Import gmap list.

Abbreviation text := (list N).

(** ** Text *)

Module Text.

(** The code points of an ASCII literal. *)
Definition py (s : string) : text := map N_of_ascii (list_ascii_of_string s).

(** [str(z)] for an [int]. *)
Definition str_int (z : Z) : text := py (NilZero.string_of_int (Z.to_int z)).

Definition text_eqb (a b : text) : bool := bool_decide (a = b).

(** [sep.join(parts)]. *)
Fixpoint join (sep : text) (parts : list text) : text :=
  match parts with
  | [] => []
  | [p] => p
  | p :: rest => p ++ sep ++ join sep rest
  end.

(** [str.isspace] on one code point (the Unicode white space set). *)
Definition isspace (c : N) : bool :=
  ((9 <=? c) && (c <=? 13) || (28 <=? c) && (c <=? 32)
   || (c =? 133) || (c =? 160) || (c =? 5760)
   || (8192 <=? c) && (c <=? 8202)
   || (c =? 8232) || (c =? 8233) || (c =? 8239) || (c =? 8287)
   || (c =? 12288))%N.

Fixpoint lstrip (s : text) : text :=
  match s with
  | c :: s' => if isspace c then lstrip s' else s
  | [] => []
  end.

(** [s.strip()]. *)
Definition strip (s : text) : text := rev (lstrip (rev (lstrip s))).

(** The lines a text-mode file yields when iterated (universal newlines:
    a line ends at LF, CR or CRLF), without their terminators.  The empty
    pieces this produces (between CR and LF, or after the last
    terminator) are lines that [strip] to the empty string. *)
Fixpoint lines_from (cur : text) (s : text) : list text :=
  match s with
  | [] => [rev cur]
  | c :: s' =>
      if ((c =? 10) || (c =? 13))%N then rev cur :: lines_from [] s'
      else lines_from (c :: cur) s'
  end.

Definition lines (s : text) : list text := lines_from [] s.

(** Whether the text can be written to a UTF-8 file: lone surrogates
    raise [UnicodeEncodeError]. *)
Definition encodable (s : text) : bool :=
  forallb (fun c => negb ((55296 <=? c) && (c <=? 57343))%N) s.

(** [seq[start:]] with Python's treatment of a negative or too large
    start. *)
Definition slice_from {A} (start : Z) (l : list A) : list A :=
  let n := Z.of_nat (length l) in
  let i := if (start <? 0)%Z then Z.max 0 (start + n) else Z.min start n in
  drop (Z.to_nat i) l.

End Text.
Import Text.

(** ** JSON, as [json.dumps(..., ensure_ascii=False)] writes it and
  [json.loads] reads it *)

Module Json.

(** A decoded JSON value.  A [dict] keeps its keys in insertion order.  A
    number written without fraction and exponent is an [int]; any other
    number is a [float], kept as its literal. *)
#[warnings="-register-all"]
Inductive json : Type :=
| JNull
| JBool (b : bool)
| JInt (z : Z)
| JFloat (literal : text)
| JStr (s : text)
| JArr (items : list json)
| JObj (members : list (text * json)).

(** *** Encoder *)

Definition hex_char (d : N) : N := (if d <? 10 then 48 + d else 87 + d)%N.

(** One character of a string, as the encoder's escape table has it: the
    quote, the backslash and the control characters are escaped, all
    else is written as it is. *)
Definition escape_char (c : N) : text :=
  (if c =? 34 then [92; 34]
   else if c =? 92 then [92; 92]
   else if c =? 10 then [92; 110]
   else if c =? 13 then [92; 114]
   else if c =? 9 then [92; 116]
   else if c =? 8 then [92; 98]
   else if c =? 12 then [92; 102]
   else if c <? 32 then [92; 117; 48; 48; hex_char (c / 16); hex_char (c mod 16)]
   else [c])%N.

Definition encode_string (s : text) : text :=
  [34%N] ++ concat (map escape_char s) ++ [34%N].

Fixpoint json_dumps (v : json) : text :=
  match v with
  | JNull => py "null"
  | JBool true => py "true"
  | JBool false => py "false"
  | JInt z => str_int z
  | JFloat l => l
  | JStr s => encode_string s
  | JArr items => py "[" ++ join (py ", ") (map json_dumps items) ++ py "]"
  | JObj members =>
      py "{"
      ++ join (py ", ")
           (map (fun kv => encode_string (fst kv) ++ py ": " ++ json_dumps (snd kv))
              members)
      ++ py "}"
  end.

(** *** Decoder *)

Definition is_ws (c : N) : bool :=
  ((c =? 32) || (c =? 9) || (c =? 10) || (c =? 13))%N.

Fixpoint skip_ws (s : text) : text :=
  match s with
  | c :: s' => if is_ws c then skip_ws s' else s
  | [] => []
  end.

Definition is_digit (c : N) : bool := ((48 <=? c) && (c <=? 57))%N.

Definition hex_digit (c : N) : option N :=
  (if (48 <=? c) && (c <=? 57) then Some (c - 48)
   else if (97 <=? c) && (c <=? 102) then Some (c - 87)
   else if (65 <=? c) && (c <=? 70) then Some (c - 55)
   else None)%N.

Definition hex4 (a b c d : N) : option N :=
  match hex_digit a, hex_digit b, hex_digit c, hex_digit d with
  | Some x, Some y, Some z, Some w => Some (((x * 16 + y) * 16 + z) * 16 + w)%N
  | _, _, _, _ => None
  end.

(** The character after a backslash, [u] apart. *)
Definition unescape (e : N) : option N :=
  (if e =? 34 then Some 34
   else if e =? 92 then Some 92
   else if e =? 47 then Some 47
   else if e =? 98 then Some 8
   else if e =? 102 then Some 12
   else if e =? 110 then Some 10
   else if e =? 114 then Some 13
   else if e =? 116 then Some 9
   else None)%N.

Definition is_high_surrogate (u : N) : bool := ((55296 <=? u) && (u <=? 56319))%N.
Definition is_low_surrogate (u : N) : bool := ((56320 <=? u) && (u <=? 57343))%N.

(** The body of a string, after its opening quote: the decoded string
    and what follows the closing quote.  Strict mode: a raw control
    character is an error.  Two escapes that form a surrogate pair are
    joined. *)
Fixpoint scan_string (s : text) (acc : text) : option (text * text) :=
  match s with
  | [] => None
  | c :: s' =>
      if (c =? 34)%N then Some (rev acc, s')
      else if (c =? 92)%N then
        match s' with
        | [] => None
        | e :: s'' =>
            if (e =? 117)%N then
              match s'' with
              | a :: b :: c1 :: d :: s3 =>
                  match hex4 a b c1 d with
                  | None => None
                  | Some u =>
                      if is_high_surrogate u then
                        match s3 with
                        | b1 :: u1 :: a2 :: b2 :: c2 :: d2 :: s4 =>
                            if ((b1 =? 92) && (u1 =? 117))%N then
                              match hex4 a2 b2 c2 d2 with
                              | None => None
                              | Some u2 =>
                                  if is_low_surrogate u2
                                  then scan_string s4
                                         ((65536 + (u - 55296) * 1024 + (u2 - 56320))%N :: acc)
                                  else scan_string s3 (u :: acc)
                              end
                            else scan_string s3 (u :: acc)
                        | _ => scan_string s3 (u :: acc)
                        end
                      else scan_string s3 (u :: acc)
                  end
              | _ => None
              end
            else
              match unescape e with
              | Some x => scan_string s'' (x :: acc)
              | None => None
              end
        end
      else if (c <? 32)%N then None
      else scan_string s' (c :: acc)
  end.

(** The longest prefix of digits, and the rest. *)
Fixpoint span_digits (s : text) : text * text :=
  match s with
  | c :: s' =>
      if is_digit c then let '(ds, r) := span_digits s' in (c :: ds, r)
      else ([], s)
  | [] => ([], [])
  end.

Definition digits_value (ds : text) : Z :=
  fold_left (fun acc c => (acc * 10 + Z.of_N (c - 48))%Z) ds 0%Z.

(** [s] without the prefix [p], when it starts with it. *)
Fixpoint strip_prefix (p s : text) : option text :=
  match p, s with
  | [], _ => Some s
  | a :: p', b :: s' => if (a =? b)%N then strip_prefix p' s' else None
  | _ :: _, [] => None
  end.

(** The integer part of a number: [0], or a digit from 1 to 9 followed by
    digits. *)
Definition scan_int_part (s : text) : option (text * text) :=
  match s with
  | c :: s' =>
      if (c =? 48)%N then Some ([c], s')
      else if is_digit c then let '(ds, r) := span_digits s' in Some (c :: ds, r)
      else None
  | [] => None
  end.

(** An optional fraction: a dot followed by at least one digit. *)
Definition scan_frac (s : text) : text * text :=
  match s with
  | c :: s' =>
      if (c =? 46)%N then
        match span_digits s' with
        | ([], _) => ([], s)
        | (ds, r) => (c :: ds, r)
        end
      else ([], s)
  | [] => ([], s)
  end.

(** An optional exponent: [e] or [E], an optional sign, at least one
    digit. *)
Definition scan_exp (s : text) : text * text :=
  match s with
  | c :: s' =>
      if ((c =? 101) || (c =? 69))%N then
        match s' with
        | g :: s'' =>
            if ((g =? 43) || (g =? 45))%N then
              match span_digits s'' with
              | ([], _) => ([], s)
              | (ds, r) => (c :: g :: ds, r)
              end
            else
              match span_digits s' with
              | ([], _) => ([], s)
              | (ds, r) => (c :: ds, r)
              end
        | [] => ([], s)
        end
      else ([], s)
  | [] => ([], s)
  end.

Definition scan_number (s : text) : option (json * text) :=
  let '(neg, s0) :=
    match s with
    | c :: s' => if (c =? 45)%N then (true, s') else (false, s)
    | [] => (false, s)
    end in
  match scan_int_part s0 with
  | None => None
  | Some (ip, r1) =>
      let '(fp, r2) := scan_frac r1 in
      let '(ep, r3) := scan_exp r2 in
      match fp, ep with
      | [], [] =>
          Some (JInt (if neg then - digits_value ip else digits_value ip)%Z, r3)
      | _, _ =>
          Some (JFloat ((if neg then [45%N] else []) ++ ip ++ fp ++ ep), r3)
      end
  end.

(** The scalars that are neither strings nor containers. *)
Definition scan_scalar (s : text) : option (json * text) :=
  match strip_prefix (py "null") s with
  | Some r => Some (JNull, r)
  | None =>
  match strip_prefix (py "true") s with
  | Some r => Some (JBool true, r)
  | None =>
  match strip_prefix (py "false") s with
  | Some r => Some (JBool false, r)
  | None =>
  match strip_prefix (py "NaN") s with
  | Some r => Some (JFloat (py "NaN"), r)
  | None =>
  match strip_prefix (py "Infinity") s with
  | Some r => Some (JFloat (py "Infinity"), r)
  | None =>
  match strip_prefix (py "-Infinity") s with
  | Some r => Some (JFloat (py "-Infinity"), r)
  | None => scan_number s
  end end end end end end.

(** [d[k] = v] on a dict in insertion order: a key that is present keeps
    its place and takes the new value. *)
Fixpoint dict_set (k : text) (v : json) (d : list (text * json)) : list (text * json) :=
  match d with
  | [] => [(k, v)]
  | (k', v') :: d' => if text_eqb k k' then (k, v) :: d' else (k', v') :: dict_set k v d'
  end.

Inductive parse_result : Type :=
| Parsed (v : json) (rest : text)
| Invalid
| OutOfFuel.

(** Recursive descent, with fuel for the nesting and for the elements.
    Neither the depth of the nesting nor the size of a number is limited
    (CPython gives up, with an exception, beyond its recursion limit and
    beyond 4300 digits). *)
Fixpoint parse_value (fuel : nat) (s : text) : parse_result :=
  match fuel with
  | O => OutOfFuel
  | S fuel' =>
      match s with
      | [] => Invalid
      | c :: s' =>
          if (c =? 34)%N then
            match scan_string s' [] with
            | Some (str, rest) => Parsed (JStr str) rest
            | None => Invalid
            end
          else if (c =? 123)%N then
            match skip_ws s' with
            | [] => Invalid
            | c1 :: s1 =>
                if (c1 =? 125)%N then Parsed (JObj []) s1
                else parse_members fuel' (c1 :: s1) []
            end
          else if (c =? 91)%N then
            match skip_ws s' with
            | [] => Invalid
            | c1 :: s1 =>
                if (c1 =? 93)%N then Parsed (JArr []) s1
                else parse_items fuel' (c1 :: s1) []
            end
          else
            match scan_scalar s with
            | Some (v, rest) => Parsed v rest
            | None => Invalid
            end
      end
  end

(** The elements of an array, from the start of an element. *)
with parse_items (fuel : nat) (s : text) (acc : list json) : parse_result :=
  match fuel with
  | O => OutOfFuel
  | S fuel' =>
      match parse_value fuel' s with
      | Parsed v rest =>
          match skip_ws rest with
          | [] => Invalid
          | c :: r =>
              if (c =? 44)%N then parse_items fuel' (skip_ws r) (v :: acc)
              else if (c =? 93)%N then Parsed (JArr (rev (v :: acc))) r
              else Invalid
          end
      | Invalid => Invalid
      | OutOfFuel => OutOfFuel
      end
  end

(** The members of an object, from the opening quote of a key. *)
with parse_members (fuel : nat) (s : text) (acc : list (text * json)) : parse_result :=
  match fuel with
  | O => OutOfFuel
  | S fuel' =>
      match s with
      | [] => Invalid
      | q :: s0 =>
          if (q =? 34)%N then
            match scan_string s0 [] with
            | None => Invalid
            | Some (key, r0) =>
                match skip_ws r0 with
                | [] => Invalid
                | c0 :: r1 =>
                    if (c0 =? 58)%N then
                      match parse_value fuel' (skip_ws r1) with
                      | Parsed v rest =>
                          match skip_ws rest with
                          | [] => Invalid
                          | c :: r =>
                              if (c =? 125)%N then Parsed (JObj (dict_set key v acc)) r
                              else if (c =? 44)%N
                              then parse_members fuel' (skip_ws r) (dict_set key v acc)
                              else Invalid
                          end
                      | Invalid => Invalid
                      | OutOfFuel => OutOfFuel
                      end
                    else Invalid
                end
            end
          else Invalid
      end
  end.

(** [json.loads(s)]: one value, white space around it allowed, nothing
    else after it.  [None] stands for the exception raised on anything
    else.  The fuel given is enough for every input
    ([json_loads_fuel]). *)
Definition json_loads (s : text) : option json :=
  match parse_value (S (2 * length s)) (skip_ws s) with
  | Parsed v rest => match skip_ws rest with [] => Some v | _ :: _ => None end
  | Invalid => None
  | OutOfFuel => None
  end.

End Json.
Import Json.

(** ** [database/models.py] *)

Module Models.

Record AppConfig := {
  tor_socks_proxy : text;
  tor_control_port : Z;
  log_enabled : bool;
  log_file : text;
  telegram_enabled : bool;
  telegram_bot_token : text;
  telegram_chat_id : text;
  virustotal_enabled : bool;
  virustotal_api_key : text;
  block_suspicious_urls : bool
}.

Record ChangeResult := {
  timestamp : text;
  real_ip : text;
  old_tor_ip : text;
  new_tor_ip : text;
  old_country : text;
  old_city : text;
  new_country : text;
  new_city : text;
  changed : bool;
  note : text
}.

Record URLReputationResult := {
  url : text;
  is_safe : bool;
  threat_level : text;
  threat_count : Z;
  analysis_date : text;
  details : text
}.

End Models.
Import Models.

(** ** The file system the log lives in *)

Module Files.

(** A regular file: its decoded content, and whether opening it for
    reading (and decoding it), opening it for appending, and unlinking
    it succeed. *)
Record file_node := {
  content : text;
  readable : bool;
  writable : bool;
  removable : bool
}.

Inductive node : Type :=
| Directory
| Regular (f : file_node).

(** What exists, by path, and where a new file can be created. *)
Record FS := {
  nodes : gmap text node;
  creatable : text -> bool
}.

Definition with_nodes (fs : FS) (m : gmap text node) : FS :=
  {| nodes := m; creatable := creatable fs |}.

Definition fresh_file : file_node :=
  {| content := []; readable := true; writable := true; removable := true |}.

(** [os.path.exists(path)]. *)
Definition path_exists (fs : FS) (path : text) : bool :=
  match nodes fs !! path with Some _ => true | None => false end.

(** [open(path, "a", encoding="utf-8")]: [None] when it raises; a file
    that is missing is created. *)
Definition open_append (fs : FS) (path : text) : option FS :=
  match nodes fs !! path with
  | Some Directory => None
  | Some (Regular f) => if writable f then Some fs else None
  | None =>
      if creatable fs path
      then Some (with_nodes fs (<[path := Regular fresh_file]> (nodes fs)))
      else None
  end.

(** [f.write(s)] on a file opened for appending: [None] when the text
    cannot be encoded, and then nothing is written. *)
Definition write_text (fs : FS) (path : text) (s : text) : option FS :=
  match nodes fs !! path with
  | Some (Regular f) =>
      if encodable s
      then Some (with_nodes fs
                   (<[path := Regular {| content := content f ++ s;
                                         readable := readable f;
                                         writable := writable f;
                                         removable := removable f |}]> (nodes fs)))
      else None
  | _ => None
  end.

(** [open(path, "r", encoding="utf-8")] and reading it to the end:
    [None] when any of it raises. *)
Definition read_text (fs : FS) (path : text) : option text :=
  match nodes fs !! path with
  | Some (Regular f) => if readable f then Some (content f) else None
  | _ => None
  end.

(** [os.remove(path)]: [None] when it raises. *)
Definition os_remove (fs : FS) (path : text) : option FS :=
  match nodes fs !! path with
  | Some (Regular f) =>
      if removable f then Some (with_nodes fs (delete path (nodes fs))) else None
  | _ => None
  end.

End Files.
Import Files.

(** ** [database/logging.py] *)

Module Logging.

(** The dict that [append_log] serialises. *)
Definition log_entry (result : ChangeResult) : json :=
  JObj [ (py "timestamp", JStr (timestamp result));
         (py "real_ip", JStr (real_ip result));
         (py "old_tor_ip", JStr (old_tor_ip result));
         (py "new_tor_ip", JStr (new_tor_ip result));
         (py "old_country", JStr (old_country result));
         (py "old_city", JStr (old_city result));
         (py "new_country", JStr (new_country result));
         (py "new_city", JStr (new_city result));
         (py "changed", JBool (changed result));
         (py "note", JStr (note result)) ].

(** The line written for a result. *)
Definition log_line (result : ChangeResult) : text :=
  json_dumps (log_entry result) ++ [10%N].

Definition append_log (config : AppConfig) (result : ChangeResult) (fs : FS) : FS :=
  if negb (log_enabled config) then fs
  else
    match open_append fs (log_file config) with
    | None => fs
    | Some fs1 =>
        match write_text fs1 (log_file config) (log_line result) with
        | Some fs2 => fs2
        | None => fs1
        end
    end.

(** The loop over the lines of the file, with [items] as it grows. *)
Fixpoint collect_items (ls : list text) (items : list json) : list json :=
  match ls with
  | [] => items
  | line :: rest =>
      let line := strip line in
      match line with
      | [] => collect_items rest items
      | _ :: _ =>
          match json_loads line with
          | Some v => collect_items rest (items ++ [v])
          | None => collect_items rest items
          end
      end
  end.

Definition read_last_logs (log_file : text) (limit : Z) (fs : FS) : list json :=
  if negb (path_exists fs log_file) then []
  else
    match read_text fs log_file with
    | Some s => rev (slice_from (- limit) (collect_items (lines s) []))
    | None => []
    end.

Definition clear_logs (log_file : text) (fs : FS) : bool * FS :=
  if path_exists fs log_file then
    match os_remove fs log_file with
    | Some fs' => (true, fs')
    | None => (false, fs)
    end
  else (true, fs).

End Logging.
Import Logging.

(** ** The outside world *)

Module Runtime.

(** A JSON object whose values are strings, as the address and location
    services answer.  Answers that hold a value of another type under
    one of the keys the code reads are not modelled. *)
Abbreviation dict := (list (text * text)).

(** The answers of the outside, by kind of call and by the number of
    calls of that kind made before. *)
Record Env := {
  (** the body of the direct address echo, [None] when the request or
      its decoding raises *)
  ipify : nat -> option dict;
  (** the same for a request through the proxy, for the given proxy and
      URL, during the k-th resolution of the proxied address *)
  tor_echo : nat -> text -> text -> option dict;
  (** the location service, for the given address: [None] when the
      request raises, else the status and the body ([None] when decoding
      it raises) *)
  ipapi : nat -> text -> option (Z * option dict);
  (** the control port: [None] when connecting, authenticating and
      signalling succeed, else [str(e)] of what was raised *)
  controller : nat -> Z -> option text;
  (** [datetime.now().strftime(...)] *)
  now : nat -> text;
  (** the reading of the monotonic clock, in nanoseconds, when the sleep
      that follows k sleeps starts *)
  monotonic : nat -> N
}.

(** The file system, and what the code did so far (most recent first in
    each list). *)
Record World := {
  fs : FS;
  (** every NEWNYM attempt: the port, and the failure if it failed *)
  signals : list (Z * option text);
  real_queries : nat;
  tor_queries : nat;
  geo_queries : nat;
  clock_reads : nat;
  (** the arguments of [time.sleep] *)
  naps : list Z;
  (** the chat and the text of every message posted *)
  telegrams : list (text * text)
}.

Definition with_fs (w : World) (x : FS) : World :=
  {| fs := x; signals := signals w; real_queries := real_queries w;
     tor_queries := tor_queries w; geo_queries := geo_queries w;
     clock_reads := clock_reads w; naps := naps w; telegrams := telegrams w |}.

Definition with_signals (w : World) (x : list (Z * option text)) : World :=
  {| fs := fs w; signals := x; real_queries := real_queries w;
     tor_queries := tor_queries w; geo_queries := geo_queries w;
     clock_reads := clock_reads w; naps := naps w; telegrams := telegrams w |}.

Definition with_real_queries (w : World) (x : nat) : World :=
  {| fs := fs w; signals := signals w; real_queries := x;
     tor_queries := tor_queries w; geo_queries := geo_queries w;
     clock_reads := clock_reads w; naps := naps w; telegrams := telegrams w |}.

Definition with_tor_queries (w : World) (x : nat) : World :=
  {| fs := fs w; signals := signals w; real_queries := real_queries w;
     tor_queries := x; geo_queries := geo_queries w;
     clock_reads := clock_reads w; naps := naps w; telegrams := telegrams w |}.

Definition with_geo_queries (w : World) (x : nat) : World :=
  {| fs := fs w; signals := signals w; real_queries := real_queries w;
     tor_queries := tor_queries w; geo_queries := x;
     clock_reads := clock_reads w; naps := naps w; telegrams := telegrams w |}.

Definition with_clock_reads (w : World) (x : nat) : World :=
  {| fs := fs w; signals := signals w; real_queries := real_queries w;
     tor_queries := tor_queries w; geo_queries := geo_queries w;
     clock_reads := x; naps := naps w; telegrams := telegrams w |}.

Definition with_naps (w : World) (x : list Z) : World :=
  {| fs := fs w; signals := signals w; real_queries := real_queries w;
     tor_queries := tor_queries w; geo_queries := geo_queries w;
     clock_reads := clock_reads w; naps := x; telegrams := telegrams w |}.

Definition with_telegrams (w : World) (x : list (text * text)) : World :=
  {| fs := fs w; signals := signals w; real_queries := real_queries w;
     tor_queries := tor_queries w; geo_queries := geo_queries w;
     clock_reads := clock_reads w; naps := naps w; telegrams := x |}.

(** How a call ends. *)
Inductive result (A : Type) : Type :=
| Returned (a : A)
| Raised (msg : text).
Arguments Returned {A} a.
Arguments Raised {A} msg.

(** A computation on the world that may raise.  What it did before it
    raised stays done. *)
Definition M (A : Type) : Type := World -> result A * World.

Definition ret {A} (a : A) : M A := fun w => (Returned a, w).

Definition raise {A} (msg : text) : M A := fun w => (Raised msg, w).

Definition bind {A B} (m : M A) (k : A -> M B) : M B :=
  fun w =>
    match m w with
    | (Returned a, w') => k a w'
    | (Raised msg, w') => (Raised msg, w')
    end.

Declare Scope py_scope.
Delimit Scope py_scope with py.
Notation "x <- m ;; k" := (bind m (fun x => k))
  (at level 100, m at next level, right associativity) : py_scope.
Notation "m ;;; k" := (bind m (fun _ => k))
  (at level 100, right associativity) : py_scope.

(** [d.get(k)]. *)
Fixpoint dict_get (k : text) (d : dict) : option text :=
  match d with
  | [] => None
  | (k', v) :: d' => if text_eqb k k' then Some v else dict_get k d'
  end.

End Runtime.
Import Runtime.

(** ** [core.py] *)

Module Core.

Definition NOT_DEFINED : text := Eval cbv in py "Not Defined".

Section WithEnv.
Variable env : Env.

Definition get_real_ip : M text :=
  fun w =>
    (Returned
       match ipify env (real_queries w) with
       | Some d => default NOT_DEFINED (dict_get (py "ip") d)
       | None => NOT_DEFINED
       end,
     with_real_queries w (S (real_queries w))).

Definition urls : list text :=
  [ py "https://check.torproject.org/api/ip";
    py "https://httpbin.org/ip";
    py "https://api.ipify.org?format=json" ].

(** The loop of [get_tor_ip] over the candidate URLs. *)
Fixpoint first_address (fetch : text -> option dict) (candidates : list text) : text :=
  match candidates with
  | [] => NOT_DEFINED
  | u :: rest =>
      match fetch u with
      | None => first_address fetch rest
      | Some data =>
          match dict_get (py "IP") data with
          | Some ip => ip
          | None =>
              match dict_get (py "origin") data with
              | Some ip => ip
              | None =>
                  match dict_get (py "ip") data with
                  | Some ip => ip
                  | None => first_address fetch rest
                  end
              end
          end
      end
  end.

(** What the k-th resolution of the proxied address yields. *)
Definition resolved (k : nat) (tor_socks_proxy : text) : text :=
  first_address (tor_echo env k tor_socks_proxy) urls.

Definition get_tor_ip (tor_socks_proxy : text) : M text :=
  fun w =>
    (Returned (resolved (tor_queries w) tor_socks_proxy),
     with_tor_queries w (S (tor_queries w))).

(** [x or "Not Defined"] for the result of [j.get(..)]. *)
Definition or_not_defined (x : option text) : text :=
  match x with
  | Some (c :: s) => c :: s
  | _ => NOT_DEFINED
  end.

Definition get_location_for_ip (ip : text) : M (text * text) :=
  match ip with
  | [] => ret (NOT_DEFINED, NOT_DEFINED)
  | _ :: _ =>
      if text_eqb ip NOT_DEFINED then ret (NOT_DEFINED, NOT_DEFINED)
      else
        fun w =>
          (Returned
             match ipapi env (geo_queries w) ip with
             | Some (status, Some j) =>
                 if (status =? 200)%Z
                 then (or_not_defined (dict_get (py "country_name") j),
                       or_not_defined (dict_get (py "city") j))
                 else (NOT_DEFINED, NOT_DEFINED)
             | _ => (NOT_DEFINED, NOT_DEFINED)
             end,
           with_geo_queries w (S (geo_queries w)))
  end.

(** The message of the exception [tor_newnym] raises. *)
Definition newnym_error (control_port : Z) (cause : text) : text :=
  py "Failed to connect to Tor control port " ++ str_int control_port
  ++ py ": " ++ cause.

Definition tor_newnym (control_port : Z) : M unit :=
  fun w =>
    match controller env (length (signals w)) control_port with
    | None => (Returned tt, with_signals w ((control_port, None) :: signals w))
    | Some cause =>
        (Raised (newnym_error control_port cause),
         with_signals w ((control_port, Some cause) :: signals w))
    end.

(** [time.sleep(seconds)] for an [int], as CPython 3.11 does it on
    Linux.  The seconds are converted to a signed 64-bit count of
    nanoseconds, with an [OverflowError] when the count does not fit;
    a negative length is refused with a [ValueError]; the deadline is
    the reading of the monotonic clock plus the length, and when that
    sum has wrapped around [clock_nanosleep] refuses it, which gives an
    [OSError]. *)
Definition SEC_TO_NS : Z := 1000000000.
Definition PyTime_MAX : Z := 2 ^ 63 - 1.
Definition PyTime_MIN : Z := - 2 ^ 63.

Definition sleep_error (clock seconds : Z) : option text :=
  if ((seconds <? Z.quot PyTime_MIN SEC_TO_NS)
      || (Z.quot PyTime_MAX SEC_TO_NS <? seconds))%Z
  then Some (py "timestamp too large to convert to C _PyTime_t")
  else if (seconds <? 0)%Z then Some (py "sleep length must be non-negative")
  else if (PyTime_MAX <? clock + seconds * SEC_TO_NS)%Z
  then Some (py "[Errno 22] Invalid argument")
  else None.

Definition sleep (seconds : Z) : M unit :=
  fun w =>
    match sleep_error (Z.of_N (monotonic env (length (naps w)))) seconds with
    | Some msg => (Raised msg, w)
    | None => (Returned tt, with_naps w (seconds :: naps w))
    end.

(** [datetime.now().strftime("%Y-%m-%d %H:%M:%S")]. *)
Definition now_str : M text :=
  fun w => (Returned (now env (clock_reads w)), with_clock_reads w (S (clock_reads w))).

End WithEnv.

End Core.
Import Core.

(** ** [network.py] *)

Module Network.

Definition send_telegram_notification (config : AppConfig) (message : text) : M unit :=
  if negb (telegram_enabled config) then ret tt
  else
    match telegram_bot_token config, telegram_chat_id config with
    | [], _ => ret tt
    | _, [] => ret tt
    | _ :: _, _ :: _ =>
        (* the request is made; whatever it raises is swallowed *)
        fun w =>
          (Returned tt,
           with_telegrams w ((telegram_chat_id config, message) :: telegrams w))
    end.

(** How an HTTP request ends: it times out, it raises something else
    ([str(e)] is [msg]), or it is answered. *)
Inductive http_outcome (B : Type) : Type :=
| TimedOut
| Failed (msg : text)
| Response (status_code : Z) (body : B).
Arguments TimedOut {B}.
Arguments Failed {B} msg.
Arguments Response {B} status_code body.

(** What reading a field out of a response body yields: the decoding or
    the lookup raises ([str(e)] is [msg]), or the field is there. *)
Inductive extracted (A : Type) : Type :=
| Unusable (msg : text)
| Field (a : A).
Arguments Unusable {A} msg.
Arguments Field {A} a.

(** The [stats] object of an analysis, with the integer counts that are
    present. *)
Record stats := {
  malicious : option Z;
  suspicious : option Z;
  undetected : option Z
}.

(** The reputation service, as seen by one check. *)
Record VirusTotal := {
  (** the submission, and [scan_data["data"]["id"]] *)
  scan : http_outcome (extracted text);
  (** the analysis with the given id, and
      [analysis_data["data"]["attributes"]["stats"]] *)
  analysis : text -> http_outcome (extracted stats);
  (** the time at which the verdict is stamped *)
  checked_at : text
}.

Definition error_verdict (url details : text) : URLReputationResult :=
  {| url := url; is_safe := false; threat_level := py "error";
     threat_count := 0; analysis_date := []; details := details |}.

(** [None] is Python's [None], which a function returns when its body
    ends without a [return]. *)
Definition check_url_reputation (vt : VirusTotal) (url api_key : text)
  : option URLReputationResult :=
  match api_key, url with
  | [], _ | _, [] =>
      Some {| url := url; is_safe := false; threat_level := py "unknown";
              threat_count := 0; analysis_date := [];
              details := py "API key is missing" |}
  | _ :: _, _ :: _ =>
      match scan vt with
      | TimedOut => Some (error_verdict url (py "VirusTotal API timeout"))
      | Failed e => Some (error_verdict url (py "Error checking reputation: " ++ e))
      | Response status_code body =>
          if negb (status_code =? 200)%Z then
            Some (error_verdict url (py "VirusTotal API error: " ++ str_int status_code))
          else
            match body with
            | Unusable e =>
                Some (error_verdict url (py "Error checking reputation: " ++ e))
            | Field analysis_id =>
                match analysis vt analysis_id with
                | TimedOut => Some (error_verdict url (py "VirusTotal API timeout"))
                | Failed e =>
                    Some (error_verdict url (py "Error checking reputation: " ++ e))
                | Response status_code' body' =>
                    if (status_code' =? 200)%Z then
                      match body' with
                      | Unusable e =>
                          Some (error_verdict url (py "Error checking reputation: " ++ e))
                      | Field st =>
                          let m := default 0%Z (malicious st) in
                          let s := default 0%Z (suspicious st) in
                          let threat_count := (m + s)%Z in
                          let threat_level :=
                            if (m >? 0)%Z then py "malicious"
                            else if (s >? 0)%Z then py "suspicious"
                            else py "clean" in
                          let is_safe := text_eqb threat_level (py "clean") in
                          let details :=
                            py "Malicious: " ++ str_int m
                            ++ py " | Suspicious: " ++ str_int s
                            ++ py " | Clean: " ++ str_int (default 0%Z (undetected st)) in
                          Some {| url := url; is_safe := is_safe;
                                  threat_level := threat_level;
                                  threat_count := threat_count;
                                  analysis_date := checked_at vt;
                                  details := details |}
                      end
                    else
                      (* no branch for another status: the body of the
                         function ends here *)
                      None
                end
            end
      end
  end.

End Network.
Import Network.

(** ** [worker.py] *)

Module Worker.

Record ChangeWorker := {
  config : AppConfig;
  wait_seconds : Z;
  retries : Z
}.

(** What [run] emits. *)
Inductive emitted : Type :=
| Done (res : ChangeResult)
| Failure (msg : text).

(** How the retry loop was left: by [break] in the given iteration
    (counted from 0), or because the range was used up. *)
Inductive loop_exit : Type :=
| Break (attempt : nat)
| RangeEnd.

Definition STAYED_NOTE : text :=
  Eval cbv in py "Circuit refreshed but exit IP may stay the same (normal sometimes).".

Definition nl : text := [10%N].

Section WithEnv.
Variable env : Env.
Variable self : ChangeWorker.

Local Open Scope py_scope.

(** The test that leaves the loop. *)
Definition moved (old_ip new_ip : text) : bool :=
  negb (text_eqb new_ip NOT_DEFINED) && negb (text_eqb new_ip old_ip).

(** The [for] loop, with [remaining] iterations to go, the next one
    being iteration [attempt]; [new_ip] and [note] are the variables
    of that name. *)
Fixpoint retry_loop (remaining attempt : nat) (old_ip new_ip note : text)
  : M (text * text * loop_exit) :=
  match remaining with
  | O => ret (new_ip, note, RangeEnd)
  | S remaining' =>
      tor_newnym env (tor_control_port (config self)) ;;;
      sleep env (wait_seconds self) ;;;
      new_ip <- get_tor_ip env (tor_socks_proxy (config self)) ;;
      if moved old_ip new_ip then ret (new_ip, note, Break attempt)
      else retry_loop remaining' (S attempt) old_ip new_ip STAYED_NOTE
  end.

(** The number of iterations of [range(self.retries + 1)]. *)
Definition attempts : nat := Z.to_nat (retries self + 1).

Definition announcement (res : ChangeResult) : text :=
  [128276%N] ++ py " <b>Identity Update</b>" ++ nl ++ nl
  ++ py "<b>Real IP:</b> <code>" ++ real_ip res ++ py "</code>" ++ nl ++ nl
  ++ py "<b>Old Tor IP:</b> <code>" ++ old_tor_ip res ++ py "</code>" ++ nl
  ++ py "<b>Old Location:</b> " ++ old_country res ++ py " / " ++ old_city res
  ++ nl ++ nl
  ++ py "<b>New Tor IP:</b> <code>" ++ new_tor_ip res ++ py "</code>" ++ nl
  ++ py "<b>New Location:</b> " ++ new_country res ++ py " / " ++ new_city res
  ++ nl ++ nl
  ++ py "<b>Changed:</b> "
  ++ (if changed res then py "Yes " ++ [9989%N] else py "No " ++ [9888%N; 65039%N])
  ++ nl
  ++ match note res with
     | [] => []
     | _ :: _ => nl ++ py "<i>" ++ note res ++ py "</i>" ++ nl
     end.

(** The body of the [try]. *)
Definition attempt_change : M ChangeResult :=
  real_ip <- get_real_ip env ;;
  old_ip <- get_tor_ip env (tor_socks_proxy (config self)) ;;
  old_loc <- get_location_for_ip env old_ip ;;
  looped <- retry_loop attempts 0 old_ip old_ip [] ;;
  let new_ip := fst (fst looped) in
  let note := snd (fst looped) in
  new_loc <- get_location_for_ip env new_ip ;;
  let changed :=
    negb (text_eqb new_ip NOT_DEFINED) && negb (text_eqb old_ip NOT_DEFINED)
    && negb (text_eqb new_ip old_ip) in
  timestamp <- now_str env ;;
  let res :=
    {| timestamp := timestamp; real_ip := real_ip;
       old_tor_ip := old_ip; new_tor_ip := new_ip;
       old_country := fst old_loc; old_city := snd old_loc;
       new_country := fst new_loc; new_city := snd new_loc;
       changed := changed; note := note |} in
  (fun w => (Returned tt, with_fs w (append_log (config self) res (fs w)))) ;;;
  send_telegram_notification (config self) (announcement res) ;;;
  ret res.

Definition run : World -> emitted * World :=
  fun w =>
    match attempt_change w with
    | (Returned res, w') => (Done res, w')
    | (Raised msg, w') => (Failure msg, w')
    end.

End WithEnv.

End Worker.
Import Worker.

(** ** Concrete configurations, environments and logs used in examples *)

Module Scenarios.

(** The defaults of [AppConfig]. *)
Definition default_config : AppConfig :=
  {| tor_socks_proxy := py "socks5h://127.0.0.1:9050";
     tor_control_port := 9051;
     log_enabled := true;
     log_file := py "identity_history.log";
     telegram_enabled := false;
     telegram_bot_token := [];
     telegram_chat_id := [];
     virustotal_enabled := false;
     virustotal_api_key := [];
     block_suspicious_urls := true |}.

Definition worker (wait_seconds retries : Z) : ChangeWorker :=
  {| config := default_config; wait_seconds := wait_seconds; retries := retries |}.

(** An environment in which the k-th resolution of the proxied address
    is answered with the k-th entry of [addresses] ([None], and everything
    beyond the list: no endpoint answers), the k-th NEWNYM attempt fails
    as the k-th entry of [failures] says, and the location service is
    down. *)
Definition scripted (addresses : list (option text)) (failures : list (option text)) : Env :=
  {| ipify := fun _ => Some [(py "ip", py "203.0.113.7")];
     tor_echo := fun k _ _ =>
                   match addresses !! k with
                   | Some (Some a) => Some [(py "IP", a)]
                   | _ => None
                   end;
     ipapi := fun _ _ => None;
     controller := fun k _ => default None (failures !! k);
     now := fun _ => py "2025-01-01 12:00:00";
     monotonic := fun k => (3600000000000 + 8000000000 * N.of_nat k)%N |}.

Definition empty_fs : FS := {| nodes := ∅; creatable := fun _ => true |}.

Definition start (files : FS) : World :=
  {| fs := files; signals := []; real_queries := 0; tor_queries := 0;
     geo_queries := 0; clock_reads := 0; naps := []; telegrams := [] |}.

Definition A1 : text := py "1.1.1.1".
Definition A2 : text := py "2.2.2.2".

Definition outcome (stamp : string) (changed : bool) : ChangeResult :=
  {| timestamp := py stamp; real_ip := py "203.0.113.7";
     old_tor_ip := A1; new_tor_ip := if changed then A2 else A1;
     old_country := py "Germany"; old_city := py "Berlin";
     new_country := py "France"; new_city := py "Paris";
     changed := changed; note := [] |}.

(** A file system holding one regular file with the given content. *)
Definition one_file (path content : text) : FS :=
  {| nodes := {[ path := Regular {| content := content; readable := true;
                                    writable := true; removable := true |} ]};
     creatable := fun _ => true |}.

(** A reputation service that accepts the submission and answers the
    analysis request with the given status. *)
Definition vt_analysis_status (status : Z) : VirusTotal :=
  {| scan := Response 200 (Field (py "u-abc-123"));
     analysis := fun _ => Response status
                            (Field {| malicious := Some 0%Z; suspicious := Some 0%Z;
                                      undetected := Some 70%Z |});
     checked_at := py "2025-01-01 12:00:00" |}.

(** A log of two records, and one whose only line lacks its line
    break. *)
Definition two_records : text :=
  log_line (outcome "2025-01-01 12:00:00" false)
  ++ log_line (outcome "2025-01-02 09:30:00" true).

Definition unterminated : text :=
  json_dumps (log_entry (outcome "2025-01-01 12:00:00" false)).

Definition steady_then_moved : Env := scripted [Some A1; Some A1; Some A2] [].

Definition refused_at_second : Env :=
  scripted [Some A1; Some A1; Some A1]
    [None; Some (py "[Errno 111] Connection refused")].

Definition undetermined_then_back : Env := scripted [Some A1; None; Some A1] [].

Definition undetermined_at_first : Env := scripted [None; None; Some A2] [].

(** The world in which the loop of a run from [start empty_fs] is
    entered. *)
Definition at_loop_entry : World :=
  with_tor_queries (with_real_queries (start empty_fs) 1) 1.

(** The outcome of a run on the addresses 1.1.1.1, 1.1.1.1, 2.2.2.2 with
    the location service down. *)
Definition moved_outcome : ChangeResult :=
  {| timestamp := py "2025-01-01 12:00:00"; real_ip := py "203.0.113.7";
     old_tor_ip := A1; new_tor_ip := A2;
     old_country := NOT_DEFINED; old_city := NOT_DEFINED;
     new_country := NOT_DEFINED; new_city := NOT_DEFINED;
     changed := true; note := STAYED_NOTE |}.

(** The outcome of a run on the addresses undetermined, undetermined,
    2.2.2.2. *)
Definition late_outcome : ChangeResult :=
  {| timestamp := py "2025-01-01 12:00:00"; real_ip := py "203.0.113.7";
     old_tor_ip := NOT_DEFINED; new_tor_ip := A2;
     old_country := NOT_DEFINED; old_city := NOT_DEFINED;
     new_country := NOT_DEFINED; new_city := NOT_DEFINED;
     changed := false; note := STAYED_NOTE |}.

End Scenarios.
Import Scenarios.

(** ** Notions used in the statements *)

(** The NEWNYM attempts made between the world [w] and the later world
    [w'], most recent first. *)
Definition signalled (w w' : World) : list (Z * option text) :=
  take (length (signals w') - length (signals w)) (signals w').

(** Whether [append_log] got to write the line: the file could be opened
    for appending and the line could be encoded. *)
Definition append_written (config : AppConfig) (result : ChangeResult) (files : FS) : bool :=
  match open_append files (log_file config) with
  | Some fs1 =>
      match write_text fs1 (log_file config) (log_line result) with
      | Some _ => true
      | None => false
      end
  | None => false
  end.

(** Whether a file content is empty or ends with a line terminator. *)
Definition newline_terminated (s : text) : bool :=
  match last s with
  | None => true
  | Some c => ((c =? 10) || (c =? 13))%N
  end.

(** The records [read_last_logs] finds in a file content, oldest first. *)
Definition records (s : text) : list json := collect_items (lines s) [].

(** Whether the log target, when it is a regular file, can be read and
    its content is empty or ends with a line terminator. *)
Definition well_kept (files : FS) (path : text) : bool :=
  match nodes files !! path with
  | Some (Regular f) => readable f && newline_terminated (content f)
  | _ => true
  end.

Definition is_nl (c : N) : bool := ((c =? 10) || (c =? 13))%N.

(** The values of the entries of a log record: strings and booleans. *)
Definition flat (v : json) : bool :=
  match v with
  | JStr _ | JBool _ => true
  | _ => false
  end.

(** One member of an object, as the encoder writes it. *)
Definition member (kv : text * json) : text :=
  encode_string (fst kv) ++ py ": " ++ json_dumps (snd kv).

(** The world after one full iteration of the retry loop that started in
    [w]. *)
Definition after_iteration (self : ChangeWorker) (w : World) : World :=
  with_tor_queries
    (with_naps (with_signals w ((tor_control_port (config self), None) :: signals w))
       (wait_seconds self :: naps w))
    (S (tor_queries w)).

(** Whether [time.sleep] does a sleep of the given length that starts at
    the given reading of the monotonic clock: the length is not
    negative, and the deadline does not exceed the largest signed 64-bit
    count of nanoseconds. *)
Definition sleep_fits (clock seconds : Z) : Prop :=
  (0 <= seconds /\ clock + seconds * 1000000000 <= 9223372036854775807)%Z.

(** The steps of [run] before the loop; they return the address held at
    loop entry, and leave the world the loop starts in. *)
Definition loop_entry (env : Env) (self : ChangeWorker) : M text :=
  (real_ip <- get_real_ip env ;;
   old_ip <- get_tor_ip env (tor_socks_proxy (config self)) ;;
   old_loc <- get_location_for_ip env old_ip ;;
   ret old_ip)%py.

(** A step that sends no signal, resolves no proxied address and leaves
    the files alone. *)
Definition untouched (w w' : World) : Prop :=
  fs w' = fs w /\ signals w' = signals w /\ tor_queries w' = tor_queries w.

(** ** [ui/dialogs.py]: the list of checked URLs *)

Module Dialogs.

(** The part of [URLCheckDialog] that [_add_url_to_list] works on: the
    rows of the list widget, first row first, each with its text, its
    colour and the result stored in it, and the results kept beside
    them. *)
Record URLCheckDialog := {
  url_list : list (text * text * URLReputationResult);
  url_results : list URLReputationResult
}.

(** The status text and the colour of a result. *)
Definition status_of (result : URLReputationResult) : text * text :=
  if is_safe result then ([9989%N] ++ py " SAFE", py "#00ff88")
  else if text_eqb (threat_level result) (py "suspicious")
  then ([9888%N; 65039%N] ++ py " SUSPICIOUS", py "#ffd700")
  else if text_eqb (threat_level result) (py "malicious")
  then ([10060%N] ++ py " MALICIOUS", py "#ff6b9d")
  else ([10067%N] ++ py " UNKNOWN", py "#ffffff").

(** The URL as displayed: truncated when it is too long. *)
Definition display_url (u : text) : text :=
  if (60 <? length u)%nat then take 57 u ++ py "..." else u.

Definition item_text (result : URLReputationResult) : text :=
  fst (status_of result) ++ py " | " ++ display_url (url result)
  ++ py " | Threats: " ++ str_int (threat_count result).

Definition _add_url_to_list (self : URLCheckDialog) (result : URLReputationResult)
  : URLCheckDialog :=
  {| url_list := (item_text result, snd (status_of result), result) :: url_list self;
     url_results := url_results self ++ [result] |}.

End Dialogs.
Import Dialogs.

(** ** Further notions used in the statements *)

(** An endpoint that yields no address: it fails, or its answer has none
    of the three keys. *)
Definition no_address (answer : option dict) : Prop :=
  match answer with
  | None => True
  | Some d =>
      dict_get (py "IP") d = None /\ dict_get (py "origin") d = None
      /\ dict_get (py "ip") d = None
  end.

(** Whether notifications are switched on and both credentials are set. *)
Definition posts (config : AppConfig) : bool :=
  match telegram_bot_token config, telegram_chat_id config with
  | _ :: _, _ :: _ => telegram_enabled config
  | _, _ => false
  end.

(** A step that leaves the files, the signals, the proxied resolutions,
    the messages, the sleeps and the clock as they are. *)
Definition quiet (w w' : World) : Prop :=
  fs w' = fs w /\ signals w' = signals w /\ tor_queries w' = tor_queries w
  /\ telegrams w' = telegrams w /\ naps w' = naps w /\ clock_reads w' = clock_reads w.

(** [append_log] for one result after the other. *)
Definition append_all (config : AppConfig) (results : list ChangeResult) (files : FS) : FS :=
  fold_left (fun f r => append_log config r f) results files.

(** The threat levels a verdict can have. *)
Definition TIERS : list text :=
  [py "unknown"; py "error"; py "clean"; py "suspicious"; py "malicious"].

(** An environment in which only the second echo endpoint answers, with
    the key [origin]. *)
Definition only_httpbin : Env :=
  {| ipify := fun _ => None;
     tor_echo := fun _ _ u =>
                   if text_eqb u (py "https://httpbin.org/ip")
                   then Some [(py "origin", py "1.2.3.4")]
                   else None;
     ipapi := fun _ ip => Some (200%Z, Some [(py "country_name", py "Iceland"); (py "city", [])]);
     controller := fun _ _ => None;
     now := fun _ => py "2025-01-01 12:00:00";
     monotonic := fun k => (3600000000000 + 8000000000 * N.of_nat k)%N |}.

Definition never_moves : Env := scripted [Some A1; Some A1; Some A1; Some A1] [].

Definition moves_at_once : Env := scripted [Some A1; Some A2] [].

(** An outcome whose note holds a line break, and one whose note holds a
    lone surrogate. *)
Definition two_line_note : ChangeResult :=
  {| timestamp := py "2025-01-03 08:00:00"; real_ip := py "203.0.113.7";
     old_tor_ip := A1; new_tor_ip := A2;
     old_country := NOT_DEFINED; old_city := NOT_DEFINED;
     new_country := NOT_DEFINED; new_city := NOT_DEFINED;
     changed := true; note := py "first" ++ [10%N] ++ py "second" |}.

Definition surrogate_note : ChangeResult :=
  {| timestamp := py "2025-01-03 08:00:00"; real_ip := py "203.0.113.7";
     old_tor_ip := A1; new_tor_ip := A2;
     old_country := NOT_DEFINED; old_city := NOT_DEFINED;
     new_country := NOT_DEFINED; new_city := NOT_DEFINED;
     changed := true; note := [56448%N] |}.

(** A configuration with notifications switched on. *)
Definition notifying_config : AppConfig :=
  {| tor_socks_proxy := py "socks5h://127.0.0.1:9050";
     tor_control_port := 9051;
     log_enabled := true;
     log_file := py "identity_history.log";
     telegram_enabled := true;
     telegram_bot_token := py "123:abc";
     telegram_chat_id := py "42";
     virustotal_enabled := false;
     virustotal_api_key := [];
     block_suspicious_urls := true |}.

(** A reputation service whose analysis counts the given numbers. *)
Definition vt_counts (m s : Z) : VirusTotal :=
  {| scan := Response 200 (Field (py "u-abc-123"));
     analysis := fun _ => Response 200
                            (Field {| malicious := Some m; suspicious := Some s;
                                      undetected := Some 70%Z |});
     checked_at := py "2025-01-01 12:00:00" |}.

Definition vt_timeout : VirusTotal :=
  {| scan := TimedOut;
     analysis := fun _ => Failed [];
     checked_at := [] |}.

(** The content of the log target when it is a regular file, else the
    empty text. *)
Definition log_content (files : FS) (path : text) : text :=
  match nodes files !! path with
  | Some (Regular f) => content f
  | _ => []
  end.

(** Whether records can be appended to the log target and read back: it
    is a regular file that can be read and written and is empty or ends
    with a line terminator, or it is absent and can be created. *)
Definition appendable (files : FS) (path : text) : bool :=
  match nodes files !! path with
  | Some (Regular f) => readable f && writable f && newline_terminated (content f)
  | Some Directory => false
  | None => creatable files path
  end.

Definition notifying_worker : ChangeWorker :=
  {| config := notifying_config; wait_seconds := 0; retries := 2 |}.

(** The dialog before anything was checked. *)
Definition empty_dialog : URLCheckDialog := {| url_list := []; url_results := [] |}.

(** * Proofs *)

(** ** The decoder consumes what it reads *)

Lemma skip_ws_length (s : text) : length (skip_ws s) <= length s.
Proof.
  induction s as [|c s IH]; [reflexivity|]. cbn [skip_ws].
  destruct (is_ws c); cbn [length]; lia.
Qed.

Ltac split_match H :=
  match type of H with
  | context [match ?x with _ => _ end] => destruct x eqn:?
  end.

Lemma scan_string_shorter (n : nat) :
  forall (s acc str rest : text),
    length s <= n -> scan_string s acc = Some (str, rest) -> length rest < length s.
Proof.
  induction n as [|n IH]; intros s acc str rest Hn H.
  - destruct s; [discriminate | cbn in Hn; lia].
  - destruct s as [|c s]; [discriminate|].
    cbn [scan_string] in H. cbn [length] in Hn.
    repeat (split_match H; try discriminate);
      try (inversion H; subst; cbn [length]; lia);
      try (apply IH in H; cbn [length] in *; lia).
Qed.

Lemma span_digits_length (s : text) :
  length (fst (span_digits s)) + length (snd (span_digits s)) = length s.
Proof.
  induction s as [|c s IH]; [reflexivity|]. cbn [span_digits].
  destruct (is_digit c); [|reflexivity].
  destruct (span_digits s). cbn [fst snd length] in *. lia.
Qed.

Lemma strip_prefix_length (p s r : text) :
  strip_prefix p s = Some r -> length r + length p = length s.
Proof.
  revert s. induction p as [|a p IH]; intros s H.
  - inversion H. cbn. lia.
  - destruct s as [|b s]; [discriminate|]. cbn [strip_prefix] in H.
    destruct (a =? b)%N; [|discriminate]. apply IH in H. cbn [length]. lia.
Qed.

Lemma scan_int_part_shorter (s ip r : text) :
  scan_int_part s = Some (ip, r) -> length r < length s.
Proof.
  unfold scan_int_part. destruct s as [|c s]; [discriminate|].
  destruct (c =? 48)%N; [intros H; inversion H; cbn; lia|].
  destruct (is_digit c); [|discriminate].
  pose proof (span_digits_length s). destruct (span_digits s).
  intros H'. inversion H'; subst. cbn [fst snd length] in *. lia.
Qed.

Lemma scan_frac_length (s : text) : length (snd (scan_frac s)) <= length s.
Proof.
  unfold scan_frac. destruct s as [|c s]; [reflexivity|].
  destruct (c =? 46)%N; [|reflexivity].
  pose proof (span_digits_length s). destruct (span_digits s) as [[|d ds] r];
    cbn [fst snd length] in *; lia.
Qed.

Lemma scan_exp_length (s : text) : length (snd (scan_exp s)) <= length s.
Proof.
  unfold scan_exp. destruct s as [|c s]; [reflexivity|].
  destruct ((c =? 101) || (c =? 69))%N; [|reflexivity].
  destruct s as [|g s]; [reflexivity|].
  destruct ((g =? 43) || (g =? 45))%N.
  - pose proof (span_digits_length s). destruct (span_digits s) as [[|d ds] r];
      cbn [fst snd length] in *; lia.
  - pose proof (span_digits_length (g :: s)). destruct (span_digits (g :: s)) as [[|d ds] r];
      cbn [fst snd length] in *; lia.
Qed.

Lemma scan_number_shorter (s : text) (v : json) (r : text) :
  scan_number s = Some (v, r) -> length r < length s.
Proof.
  unfold scan_number.
  set (p := match s with
            | [] => (false, s)
            | c :: s' => if (c =? 45)%N then (true, s') else (false, s)
            end).
  assert (Hp : length (snd p) <= length s).
  { subst p. destruct s as [|c s]; [reflexivity|]. destruct (c =? 45)%N; cbn; lia. }
  destruct p as [neg s0]. cbn [snd] in Hp.
  destruct (scan_int_part s0) as [[ip r1]|] eqn:Hi; [|discriminate].
  apply scan_int_part_shorter in Hi.
  pose proof (scan_frac_length r1) as Hf. destruct (scan_frac r1) as [fp r2].
  pose proof (scan_exp_length r2) as He. destruct (scan_exp r2) as [ep r3].
  cbn [snd] in *.
  destruct fp, ep; intros H; inversion H; subst; lia.
Qed.

Lemma scan_scalar_shorter (s : text) (v : json) (r : text) :
  scan_scalar s = Some (v, r) -> length r < length s.
Proof.
  unfold scan_scalar.
  repeat match goal with
         | |- context [strip_prefix ?p s] =>
             let H := fresh in
             destruct (strip_prefix p s) eqn:H;
             [apply strip_prefix_length in H; cbn [length py map list_ascii_of_string] in H;
              intros H'; inversion H'; subst; lia|]
         end.
  apply scan_number_shorter.
Qed.

Lemma parse_value_unfold (fuel : nat) (c : N) (s' : text) :
  parse_value (S fuel) (c :: s') =
  if (c =? 34)%N then
    match scan_string s' [] with
    | Some (str, rest) => Parsed (JStr str) rest
    | None => Invalid
    end
  else if (c =? 123)%N then
    match skip_ws s' with
    | [] => Invalid
    | c1 :: s1 =>
        if (c1 =? 125)%N then Parsed (JObj []) s1
        else parse_members fuel (c1 :: s1) []
    end
  else if (c =? 91)%N then
    match skip_ws s' with
    | [] => Invalid
    | c1 :: s1 =>
        if (c1 =? 93)%N then Parsed (JArr []) s1
        else parse_items fuel (c1 :: s1) []
    end
  else
    match scan_scalar (c :: s') with
    | Some (v, rest) => Parsed v rest
    | None => Invalid
    end.
Proof. reflexivity. Qed.

Lemma parse_items_unfold (fuel : nat) (s : text) (acc : list json) :
  parse_items (S fuel) s acc =
  match parse_value fuel s with
  | Parsed v rest =>
      match skip_ws rest with
      | [] => Invalid
      | c :: r =>
          if (c =? 44)%N then parse_items fuel (skip_ws r) (v :: acc)
          else if (c =? 93)%N then Parsed (JArr (rev (v :: acc))) r
          else Invalid
      end
  | Invalid => Invalid
  | OutOfFuel => OutOfFuel
  end.
Proof. reflexivity. Qed.

Lemma parse_members_unfold (fuel : nat) (s : text) (acc : list (text * json)) :
  parse_members (S fuel) s acc =
  match s with
  | [] => Invalid
  | q :: s0 =>
      if (q =? 34)%N then
        match scan_string s0 [] with
        | None => Invalid
        | Some (key, r0) =>
            match skip_ws r0 with
            | [] => Invalid
            | c0 :: r1 =>
                if (c0 =? 58)%N then
                  match parse_value fuel (skip_ws r1) with
                  | Parsed v rest =>
                      match skip_ws rest with
                      | [] => Invalid
                      | c :: r =>
                          if (c =? 125)%N then Parsed (JObj (dict_set key v acc)) r
                          else if (c =? 44)%N
                          then parse_members fuel (skip_ws r) (dict_set key v acc)
                          else Invalid
                      end
                  | Invalid => Invalid
                  | OutOfFuel => OutOfFuel
                  end
                else Invalid
            end
        end
      else Invalid
  end.
Proof. reflexivity. Qed.

Ltac shorter_facts :=
  repeat match goal with
         | H : scan_string _ _ = Some _ |- _ =>
             apply (scan_string_shorter _ _ _ _ _ (Nat.le_refl _)) in H
         | H : scan_scalar _ = Some _ |- _ => apply scan_scalar_shorter in H
         | H : skip_ws ?s = _ :: _ |- _ =>
             let L := fresh in
             pose proof (skip_ws_length s) as L; rewrite H in L; clear H
         | H : skip_ws ?s = [] |- _ => clear H
         end.

Ltac skip_ws_facts :=
  repeat match goal with
         | H : context [skip_ws ?x] |- _ =>
             lazymatch goal with
             | _ : length (skip_ws x) <= length x |- _ => fail
             | _ => pose proof (skip_ws_length x)
             end
         end.

(** What the parser returns is shorter than what it was given. *)
Lemma parse_shorter (fuel : nat) :
  (forall s v rest, parse_value fuel s = Parsed v rest -> length rest < length s)
  /\ (forall s acc v rest, parse_items fuel s acc = Parsed v rest -> length rest < length s)
  /\ (forall s acc v rest, parse_members fuel s acc = Parsed v rest -> length rest < length s).
Proof.
  induction fuel as [|fuel (IHv & IHi & IHm)]; [by repeat split|].
  split; [|split].
  - intros [|c s'] v rest H; [discriminate|]. rewrite parse_value_unfold in H.
    repeat (split_match H; try discriminate); shorter_facts;
      try (inversion H; subst; cbn [length] in *; lia);
      try (apply IHm in H; skip_ws_facts; cbn [length] in *; lia);
      try (apply IHi in H; skip_ws_facts; cbn [length] in *; lia).
  - intros s acc v rest H. rewrite parse_items_unfold in H.
    destruct (parse_value fuel s) as [v0 rest0| |] eqn:Hv; try discriminate.
    apply IHv in Hv.
    repeat (split_match H; try discriminate); shorter_facts;
      try (inversion H; subst; cbn [length] in *; lia);
      try (apply IHi in H; skip_ws_facts; cbn [length] in *; lia).
  - intros s acc v rest H. rewrite parse_members_unfold in H.
    destruct s as [|q s0]; [discriminate|].
    destruct (q =? 34)%N; [|discriminate].
    destruct (scan_string s0 []) as [[key r0]|] eqn:Hs; [|discriminate].
    destruct (skip_ws r0) as [|c0 r1] eqn:Hw; [discriminate|].
    destruct (c0 =? 58)%N; [|discriminate].
    destruct (parse_value fuel (skip_ws r1)) as [v0 rest0| |] eqn:Hv; try discriminate.
    apply IHv in Hv. pose proof (skip_ws_length r1).
    repeat (split_match H; try discriminate); shorter_facts;
      try (inversion H; subst; cbn [length] in *; lia);
      try (apply IHm in H; skip_ws_facts; cbn [length] in *; lia).
Qed.

(** Twice the length of the input is fuel enough. *)
Lemma parse_fuel_enough (fuel : nat) :
  (forall s, 2 * length s < fuel -> parse_value fuel s <> OutOfFuel)
  /\ (forall s acc, 2 * length s + 1 < fuel -> parse_items fuel s acc <> OutOfFuel)
  /\ (forall s acc, 2 * length s + 1 < fuel -> parse_members fuel s acc <> OutOfFuel).
Proof.
  induction fuel as [|fuel (IHv & IHi & IHm)]; [repeat split; intros; lia|].
  split; [|split].
  - intros [|c s'] Hf; [discriminate|]. rewrite parse_value_unfold.
    cbn [length] in Hf.
    destruct (c =? 34)%N; [by destruct (scan_string s' []) as [[? ?]|]|].
    destruct (c =? 123)%N.
    { pose proof (skip_ws_length s'). destruct (skip_ws s') as [|c1 s1]; [discriminate|].
      destruct (c1 =? 125)%N; [discriminate|]. apply IHm. cbn [length] in *. lia. }
    destruct (c =? 91)%N.
    { pose proof (skip_ws_length s'). destruct (skip_ws s') as [|c1 s1]; [discriminate|].
      destruct (c1 =? 93)%N; [discriminate|]. apply IHi. cbn [length] in *. lia. }
    by destruct (scan_scalar (c :: s')) as [[? ?]|].
  - intros s acc Hf. rewrite parse_items_unfold.
    pose proof (IHv s ltac:(lia)) as Hv.
    destruct (parse_value fuel s) as [v rest| |] eqn:Hp; [|discriminate|done].
    apply (proj1 (parse_shorter fuel)) in Hp.
    pose proof (skip_ws_length rest). destruct (skip_ws rest) as [|c r]; [discriminate|].
    destruct (c =? 44)%N.
    { pose proof (skip_ws_length r). apply IHi. cbn [length] in *. lia. }
    by destruct (c =? 93)%N.
  - intros s acc Hf. rewrite parse_members_unfold.
    destruct s as [|q s0]; [discriminate|]. cbn [length] in Hf.
    destruct (q =? 34)%N; [|discriminate].
    destruct (scan_string s0 []) as [[key r0]|] eqn:Hs; [|discriminate].
    apply (scan_string_shorter _ _ _ _ _ (Nat.le_refl _)) in Hs.
    pose proof (skip_ws_length r0). destruct (skip_ws r0) as [|c0 r1]; [discriminate|].
    destruct (c0 =? 58)%N; [|discriminate].
    pose proof (skip_ws_length r1). cbn [length] in *.
    pose proof (IHv (skip_ws r1) ltac:(lia)) as Hv.
    destruct (parse_value fuel (skip_ws r1)) as [v rest| |] eqn:Hp; [|discriminate|done].
    apply (proj1 (parse_shorter fuel)) in Hp.
    pose proof (skip_ws_length rest). destruct (skip_ws rest) as [|c r]; [discriminate|].
    destruct (c =? 125)%N; [discriminate|].
    destruct (c =? 44)%N; [|discriminate].
    pose proof (skip_ws_length r). apply IHm. cbn [length] in *. lia.
Qed.

Lemma json_loads_fuel (s : text) :
  parse_value (S (2 * length s)) (skip_ws s) <> OutOfFuel.
Proof.
  apply (proj1 (parse_fuel_enough _)). pose proof (skip_ws_length s). lia.
Qed.
(** ** The encoder and the decoder agree on strings *)

Lemma hex_round (c : N) :
  (c < 32)%N -> hex4 48 48 (hex_char (c / 16)) (hex_char (c mod 16)) = Some c.
Proof.
  intros H.
  destruct c as [|p]; [reflexivity|].
  do 5 (destruct p as [p|p|]; try reflexivity); lia.
Qed.

Lemma scan_string_escape_char (c : N) (tail acc : text) :
  scan_string (escape_char c ++ tail) acc = scan_string tail (c :: acc).
Proof.
  unfold escape_char.
  destruct (N.eqb_spec c 34) as [->|H1]; [reflexivity|].
  destruct (N.eqb_spec c 92) as [->|H2]; [reflexivity|].
  destruct (N.eqb_spec c 10) as [->|H3]; [reflexivity|].
  destruct (N.eqb_spec c 13) as [->|H4]; [reflexivity|].
  destruct (N.eqb_spec c 9) as [->|H5]; [reflexivity|].
  destruct (N.eqb_spec c 8) as [->|H6]; [reflexivity|].
  destruct (N.eqb_spec c 12) as [->|H7]; [reflexivity|].
  destruct (N.ltb_spec c 32) as [Hlt|Hge].
  - cbn [app scan_string].
    change (92 =? 34)%N with false. change (92 =? 92)%N with true.
    change (117 =? 117)%N with true. cbv iota.
    rewrite (hex_round c Hlt).
    assert (is_high_surrogate c = false) as ->.
    { unfold is_high_surrogate. destruct (N.leb_spec 55296 c); [lia | reflexivity]. }
    reflexivity.
  - cbn [app scan_string].
    destruct (N.eqb_spec c 34); [lia|].
    destruct (N.eqb_spec c 92); [lia|].
    destruct (N.ltb_spec c 32); [lia|]. reflexivity.
Qed.

Lemma scan_string_escaped (s tail acc : text) :
  scan_string (concat (map escape_char s) ++ 34%N :: tail) acc = Some (rev acc ++ s, tail).
Proof.
  revert acc. induction s as [|c s IH]; intros acc.
  - cbn. by rewrite app_nil_r.
  - cbn [map concat]. rewrite <- app_assoc, scan_string_escape_char, IH.
    cbn [rev]. by rewrite <- app_assoc.
Qed.

Lemma scan_string_encoded (s tail : text) :
  exists body, encode_string s ++ tail = 34%N :: body /\ scan_string body [] = Some (s, tail).
Proof.
  exists (concat (map escape_char s) ++ 34%N :: tail). split.
  - unfold encode_string. cbn [app]. by rewrite <- app_assoc.
  - apply scan_string_escaped.
Qed.

(** ** Flat objects are read back as written *)

Lemma parse_value_flat (v : json) (fuel : nat) (tail : text) :
  flat v = true ->
  parse_value (S fuel) (json_dumps v ++ tail) = Parsed v tail.
Proof.
  destruct v as [| [|] | | | s | |]; try discriminate; intros _.
  - reflexivity.
  - reflexivity.
  - cbn [json_dumps].
    destruct (scan_string_encoded s tail) as (body & -> & Hscan).
    cbn. by rewrite Hscan.
Qed.

Lemma skip_ws_flat (v : json) (tail : text) :
  flat v = true -> skip_ws (json_dumps v ++ tail) = json_dumps v ++ tail.
Proof.
  destruct v as [| [|] | | | s | |]; try discriminate; intros _; reflexivity.
Qed.

Lemma skip_ws_members (kv : text * json) (kvs : list (text * json)) (tail : text) :
  exists body,
    join (py ", ") (map member (kv :: kvs)) ++ tail = 34%N :: body
    /\ skip_ws (34%N :: body) = 34%N :: body.
Proof.
  destruct kv as [k v].
  destruct kvs as [|kv' kvs]; cbn [map join member fst snd];
    unfold encode_string; cbn [app]; eexists; (split; [reflexivity|reflexivity]).
Qed.

Lemma parse_members_quote (fuel : nat) (body : text) (acc : list (text * json)) :
  parse_members (S fuel) (34%N :: body) acc =
  match scan_string body [] with
  | None => Invalid
  | Some (key, r0) =>
      match skip_ws r0 with
      | [] => Invalid
      | c0 :: r1 =>
          if (c0 =? 58)%N then
            match parse_value fuel (skip_ws r1) with
            | Parsed v rest =>
                match skip_ws rest with
                | [] => Invalid
                | c :: r =>
                    if (c =? 125)%N then Parsed (JObj (dict_set key v acc)) r
                    else if (c =? 44)%N
                    then parse_members fuel (skip_ws r) (dict_set key v acc)
                    else Invalid
                end
            | Invalid => Invalid
            | OutOfFuel => OutOfFuel
            end
          else Invalid
      end
  end.
Proof. reflexivity. Qed.

Lemma parse_member_step (k : text) (v : json) (fuel : nat) (tail : text)
      (acc : list (text * json)) :
  flat v = true ->
  parse_members (S (S fuel)) (member (k, v) ++ tail) acc =
  match skip_ws tail with
  | [] => Invalid
  | c :: r =>
      if (c =? 125)%N then Parsed (JObj (dict_set k v acc)) r
      else if (c =? 44)%N then parse_members (S fuel) (skip_ws r) (dict_set k v acc)
      else Invalid
  end.
Proof.
  intros Hv. unfold member. cbn [fst snd].
  rewrite <- !app_assoc.
  destruct (scan_string_encoded k (py ": " ++ json_dumps v ++ tail)) as (body & -> & Hscan).
  rewrite parse_members_quote, Hscan.
  change (py ": " ++ json_dumps v ++ tail) with (58%N :: 32%N :: json_dumps v ++ tail).
  change (skip_ws (58%N :: 32%N :: json_dumps v ++ tail))
    with (58%N :: 32%N :: json_dumps v ++ tail).
  change (58 =? 58)%N with true. cbv iota.
  change (skip_ws (32%N :: json_dumps v ++ tail)) with (skip_ws (json_dumps v ++ tail)).
  rewrite (skip_ws_flat v tail Hv), (parse_value_flat v fuel tail Hv).
  reflexivity.
Qed.

Lemma parse_members_flat (ms : list (text * json)) :
  forall (kv : text * json) (acc : list (text * json)) (fuel : nat) (tail : text),
    Forall (fun m => flat (snd m) = true) (kv :: ms) ->
    (length (kv :: ms) < fuel)%nat ->
    parse_members fuel (join (py ", ") (map member (kv :: ms)) ++ 125%N :: tail) acc =
    Parsed (JObj (fold_left (fun d m => dict_set (fst m) (snd m) d) (kv :: ms) acc)) tail.
Proof.
  induction ms as [|kv' ms IH]; intros [k v] acc fuel tail Hflat Hfuel.
  - destruct fuel as [|[|fuel]]; [cbn in Hfuel; lia..|].
    cbn [map join]. rewrite parse_member_step by (by inversion Hflat).
    reflexivity.
  - destruct fuel as [|[|fuel]]; [cbn in Hfuel; lia..|].
    inversion Hflat as [|? ? Hv Hrest]; subst.
    change (join (py ", ") (map member ((k, v) :: kv' :: ms)))
      with (member (k, v) ++ py ", " ++ join (py ", ") (map member (kv' :: ms))).
    rewrite <- !app_assoc. rewrite parse_member_step by exact Hv.
    destruct (skip_ws_members kv' ms (125%N :: tail)) as (body & Hbody & Hskip).
    rewrite Hbody.
    change (py ", " ++ 34%N :: body) with (44%N :: 32%N :: 34%N :: body).
    change (skip_ws (44%N :: 32%N :: 34%N :: body)) with (44%N :: 32%N :: 34%N :: body).
    change (44 =? 125)%N with false. change (44 =? 44)%N with true. cbv iota.
    change (skip_ws (32%N :: 34%N :: body)) with (skip_ws (34%N :: body)).
    rewrite Hskip, <- Hbody.
    rewrite IH; [reflexivity | exact Hrest | cbn in *; lia].
Qed.

Lemma length_member (kv : text * json) : (1 <= length (member kv))%nat.
Proof. unfold member, encode_string. cbn [app length]. lia. Qed.

Lemma length_members (ms : list (text * json)) :
  (length ms <= length (join (py ", ") (map member ms)))%nat.
Proof.
  induction ms as [|kv [|kv' ms] IH].
  - cbn. lia.
  - cbn [map join length]. pose proof (length_member kv). lia.
  - change (join (py ", ") (map member (kv :: kv' :: ms)))
      with (member kv ++ py ", " ++ join (py ", ") (map member (kv' :: ms))).
    rewrite !length_app. pose proof (length_member kv). cbn [length] in *. lia.
Qed.

Lemma json_dumps_object (ms : list (text * json)) :
  json_dumps (JObj ms) = 123%N :: join (py ", ") (map member ms) ++ [125%N].
Proof. reflexivity. Qed.

Lemma json_loads_flat_object (kv : text * json) (ms : list (text * json)) :
  Forall (fun m => flat (snd m) = true) (kv :: ms) ->
  json_loads (json_dumps (JObj (kv :: ms))) =
  Some (JObj (fold_left (fun d m => dict_set (fst m) (snd m) d) (kv :: ms) [])).
Proof.
  intros Hflat. unfold json_loads. rewrite json_dumps_object.
  pose proof (length_members (kv :: ms)) as Hlen.
  set (body := join (py ", ") (map member (kv :: ms))) in *.
  assert (skip_ws (123%N :: body ++ [125%N]) = 123%N :: body ++ [125%N]) as -> by reflexivity.
  assert (Hfuel : length (kv :: ms) < 2 * length (123%N :: body ++ [125%N])).
  { cbn [length]. rewrite length_app. cbn [length] in *. lia. }
  set (fuel := 2 * length (123%N :: body ++ [125%N])) in *. clearbody fuel.
  rewrite parse_value_unfold.
  change (123 =? 34)%N with false. change (123 =? 123)%N with true. cbv iota.
  subst body.
  destruct (skip_ws_members kv ms [125%N]) as (b & Hb & Hskip).
  rewrite Hb, Hskip. change (34 =? 125)%N with false. cbv iota. rewrite <- Hb.
  by rewrite parse_members_flat.
Qed.

Lemma json_loads_log_entry (result : ChangeResult) :
  json_loads (json_dumps (log_entry result)) = Some (log_entry result).
Proof.
  unfold log_entry. rewrite json_loads_flat_object.
  - reflexivity.
  - repeat constructor.
Qed.

(** ** What is written holds no line break and no outer white space *)

Ltac all_printable :=
  vm_compute; repeat (apply List.Forall_cons; [discriminate|]); apply List.Forall_nil.

Lemma escape_char_printable (c : N) : Forall (fun x => (32 <= x)%N) (escape_char c).
Proof.
  unfold escape_char, hex_char.
  repeat match goal with
         | |- context [N.eqb ?a ?b] => destruct (N.eqb_spec a b)
         | |- context [N.ltb ?a ?b] => destruct (N.ltb_spec a b)
         end;
    repeat (apply List.Forall_cons;
            [first [lia | apply N.le_trans with 48%N; [lia | apply N.le_add_r]]|]);
    apply List.Forall_nil.
Qed.

Lemma encode_string_printable (s : text) : Forall (fun x => (32 <= x)%N) (encode_string s).
Proof.
  unfold encode_string. apply Forall_app. split; [all_printable|].
  apply Forall_app. split; [|all_printable].
  induction s as [|c s IH]; cbn [map concat]; [constructor|].
  apply Forall_app. split; [apply escape_char_printable | exact IH].
Qed.

Lemma json_dumps_flat_printable (v : json) :
  flat v = true -> Forall (fun x => (32 <= x)%N) (json_dumps v).
Proof.
  destruct v as [| [|] | | | s | |]; try discriminate; intros _.
  - all_printable.
  - all_printable.
  - apply encode_string_printable.
Qed.

Lemma members_printable (ms : list (text * json)) :
  Forall (fun m => flat (snd m) = true) ms ->
  Forall (fun x => (32 <= x)%N) (join (py ", ") (map member ms)).
Proof.
  assert (Hm : forall kv, flat (snd kv) = true -> Forall (fun x => (32 <= x)%N) (member kv)).
  { intros kv Hkv. unfold member. apply Forall_app. split; [apply encode_string_printable|].
    apply Forall_app. split; [all_printable | by apply json_dumps_flat_printable]. }
  induction ms as [|kv [|kv' ms] IH]; intros Hflat.
  - constructor.
  - cbn [map join]. apply Hm. by inversion Hflat.
  - change (join (py ", ") (map member (kv :: kv' :: ms)))
      with (member kv ++ py ", " ++ join (py ", ") (map member (kv' :: ms))).
    inversion Hflat; subst.
    apply Forall_app. split; [by apply Hm|].
    apply Forall_app. split; [all_printable | by apply IH].
Qed.

Lemma log_entry_body (result : ChangeResult) :
  exists body,
    json_dumps (log_entry result) = 123%N :: body ++ [125%N]
    /\ Forall (fun x => (32 <= x)%N) body.
Proof.
  unfold log_entry. rewrite json_dumps_object. eexists. split; [reflexivity|].
  apply members_printable. repeat constructor.
Qed.

Lemma lstrip_printing (c : N) (s : text) : isspace c = false -> lstrip (c :: s) = c :: s.
Proof. intros H. cbn. by rewrite H. Qed.

Lemma strip_braced (body : text) :
  strip (123%N :: body ++ [125%N]) = 123%N :: body ++ [125%N].
Proof.
  unfold strip. rewrite lstrip_printing by reflexivity.
  change (123%N :: body ++ [125%N]) with ((123%N :: body) ++ [125%N]).
  rewrite rev_app_distr. cbn [rev app].
  rewrite lstrip_printing by reflexivity.
  change (125%N :: rev body ++ [123%N]) with ([125%N] ++ (rev body ++ [123%N])).
  rewrite rev_app_distr, rev_app_distr, rev_involutive. reflexivity.
Qed.

Lemma lines_from_line (s : text) :
  forall (cur tail : text),
    Forall (fun x => (32 <= x)%N) s ->
    lines_from cur (s ++ 10%N :: tail) = (rev cur ++ s) :: lines_from [] tail.
Proof.
  induction s as [|c s IH]; intros cur tail Hs.
  - cbn. by rewrite app_nil_r.
  - inversion Hs as [|? ? Hc Hs']; subst. cbn [app lines_from].
    destruct (N.eqb_spec c 10); [lia|]. destruct (N.eqb_spec c 13); [lia|].
    cbn [orb]. rewrite IH by exact Hs'. cbn [rev]. by rewrite <- app_assoc.
Qed.

Lemma lines_from_terminated (a : text) :
  forall (cur : text) (t : N),
    is_nl t = true ->
    exists L, lines_from cur (a ++ [t]) = L ++ [[]]
              /\ forall b, lines_from cur (a ++ t :: b) = L ++ lines_from [] b.
Proof.
  induction a as [|c a IH]; intros cur t Ht.
  - exists [rev cur]. unfold is_nl in Ht. cbn [app lines_from]. rewrite Ht. by split.
  - cbn [app lines_from]. destruct ((c =? 10) || (c =? 13))%N.
    + destruct (IH [] t Ht) as (L & H1 & H2). exists (rev cur :: L). split.
      * by rewrite H1.
      * intros b. by rewrite H2.
    + apply IH, Ht.
Qed.

Lemma newline_terminated_cases (s : text) :
  newline_terminated s = true ->
  s = [] \/ exists a t, s = a ++ [t] /\ is_nl t = true.
Proof.
  unfold newline_terminated.
  destruct s as [|c s] using rev_ind; [by left|].
  rewrite last_snoc. intros H. right. by exists s, c.
Qed.

Lemma lines_after_terminated (s : text) :
  newline_terminated s = true ->
  exists L, lines s = L ++ [[]] /\ forall b, lines (s ++ b) = L ++ lines b.
Proof.
  intros H. destruct (newline_terminated_cases s H) as [->|(a & t & -> & Ht)].
  - exists []. by split.
  - destruct (lines_from_terminated a [] t Ht) as (L & H1 & H2).
    exists L. split; [exact H1|]. intros b. rewrite <- app_assoc. apply H2.
Qed.

(** ** The loop over the lines *)

Lemma collect_items_app (X Y : list text) (items : list json) :
  collect_items (X ++ Y) items = collect_items Y (collect_items X items).
Proof.
  revert items. induction X as [|x X IH]; intros items; [reflexivity|].
  cbn [app collect_items]. destruct (strip x); [apply IH|].
  destruct (json_loads _); apply IH.
Qed.

Lemma collect_items_acc (X : list text) (items : list json) :
  collect_items X items = items ++ collect_items X [].
Proof.
  revert items. induction X as [|x X IH]; intros items.
  - cbn. by rewrite app_nil_r.
  - cbn [collect_items]. destruct (strip x); [apply IH|].
    destruct (json_loads _); [|apply IH].
    rewrite IH, (IH ([] ++ [_])). by rewrite <- app_assoc.
Qed.

Lemma records_after_append (s : text) (result : ChangeResult) :
  newline_terminated s = true ->
  records (s ++ log_line result) = records s ++ [log_entry result].
Proof.
  intros Hs. unfold records, log_line.
  destruct (lines_after_terminated s Hs) as (L & H1 & H2).
  rewrite H2, H1, !collect_items_app.
  destruct (log_entry_body result) as (body & Hbody & Hprint).
  assert (Hlines : lines (json_dumps (log_entry result) ++ [10%N])
                   = [json_dumps (log_entry result); []]).
  { unfold lines. rewrite lines_from_line; [reflexivity|].
    rewrite Hbody. constructor; [lia|]. apply Forall_app. split; [exact Hprint|].
    all_printable. }
  rewrite Hlines. cbn [collect_items].
  assert (Hstrip : strip (json_dumps (log_entry result)) = json_dumps (log_entry result)).
  { rewrite Hbody. apply strip_braced. }
  rewrite Hstrip. rewrite Hbody at 1. rewrite json_loads_log_entry.
  change (strip []) with (@nil N). cbn iota. reflexivity.
Qed.

Lemma slice_last_one {A} (l : list A) (x : A) : slice_from (- 1) (l ++ [x]) = [x].
Proof.
  unfold slice_from. destruct (Z.ltb_spec (- 1) 0) as [_|?]; [|lia].
  rewrite length_app. cbn [length].
  match goal with |- drop ?n _ = _ => replace n with (length l) by lia end.
  by rewrite drop_app_length.
Qed.

(** ** The change log *)

Lemma read_last_logs_records (log_file : text) (limit : Z) (files : FS) (s : text) :
  read_text files log_file = Some s ->
  read_last_logs log_file limit files = rev (slice_from (- limit) (records s)).
Proof.
  unfold read_last_logs, read_text, path_exists. intros H.
  destruct (nodes files !! log_file) as [[|f]|]; try discriminate.
  cbn [negb]. destruct (readable f); [|discriminate]. by inversion H.
Qed.

Lemma read_last_logs_unread (log_file : text) (limit : Z) (files : FS) :
  read_text files log_file = None -> read_last_logs log_file limit files = [].
Proof.
  unfold read_last_logs. intros ->. by destruct (negb _).
Qed.

Lemma slice_from_last {A} (n : Z) (l : list A) :
  (0 < n)%Z -> slice_from (- n) l = drop (length l - Z.to_nat n) l.
Proof.
  intros Hn. unfold slice_from. destruct (Z.ltb_spec (- n) 0); [|lia].
  f_equal. lia.
Qed.

(** With a positive limit the result is the newest [limit] records, newest
    first. *)
Lemma read_last_logs_positive (log_file : text) (limit : Z) (files : FS) (s : text) :
  read_text files log_file = Some s ->
  (0 < limit)%Z ->
  read_last_logs log_file limit files = take (Z.to_nat limit) (rev (records s))
  /\ (Z.of_nat (length (read_last_logs log_file limit files)) <= limit)%Z.
Proof.
  intros Hs Hn. rewrite (read_last_logs_records _ _ _ _ Hs), slice_from_last by exact Hn.
  rewrite <- firstn_rev. split; [reflexivity|].
  rewrite length_take. lia.
Qed.

(** With limit 0 the slice [items[-0:]] is the whole list. *)
Lemma read_last_logs_zero (log_file : text) (files : FS) (s : text) :
  read_text files log_file = Some s ->
  read_last_logs log_file 0 files = rev (records s).
Proof.
  intros Hs. rewrite (read_last_logs_records _ _ _ _ Hs). unfold slice_from.
  change (- 0 <? 0)%Z with false. cbv iota. rewrite Z.min_l by lia. reflexivity.
Qed.

(** C5 (fails at limit 0): [read_last_logs] is to return at most [limit]
    records, newest first; on a log of two records and with limit 0 it
    returns both. *)
Theorem read_last_logs_limit_zero_returns_all :
  read_last_logs (log_file default_config) 0
    (one_file (log_file default_config) two_records)
  = [ log_entry (outcome "2025-01-02 09:30:00" true);
      log_entry (outcome "2025-01-01 12:00:00" false) ].
Proof. vm_compute. reflexivity. Qed.

(** C6, as stated, fails: a log whose last line was left without its line
    break takes the appended record on that same line, which then does not
    parse; the append succeeds and nothing is read back. *)
Lemma append_then_read_unterminated :
  let files := one_file (log_file default_config) unterminated in
  let o := outcome "2025-01-02 09:30:00" true in
  log_enabled default_config = true
  /\ append_written default_config o files = true
  /\ read_last_logs (log_file default_config) 1 (append_log default_config o files) = []
  /\ read_last_logs (log_file default_config) 1 (append_log default_config o files)
     <> [log_entry o].
Proof. vm_compute. repeat split; discriminate. Qed.

(** C6 (amended): when logging is enabled, the append succeeds, and the
    log target was absent or a readable file that is empty or ends with a
    line break, [append_log] followed by [read_last_logs] with limit 1
    yields exactly the record of the appended outcome, field by field. *)
Theorem append_then_read_latest (config : AppConfig) (result : ChangeResult) (files : FS) :
  log_enabled config = true ->
  append_written config result files = true ->
  well_kept files (log_file config) = true ->
  read_last_logs (log_file config) 1 (append_log config result files) = [log_entry result].
Proof.
  intros Hen Hw Hk. unfold append_log. rewrite Hen. cbn [negb].
  unfold append_written in Hw. unfold well_kept in Hk.
  unfold open_append in *.
  destruct (nodes files !! log_file config) as [[|f]|] eqn:Hn; try discriminate.
  - destruct (writable f); [|discriminate].
    unfold write_text in *. rewrite Hn in *.
    destruct (encodable (log_line result)); [|discriminate].
    apply andb_prop in Hk as [Hr Hnl].
    erewrite read_last_logs_records.
    2:{ unfold read_text. cbn [nodes with_nodes]. rewrite lookup_insert_eq.
        cbn [readable content]. rewrite Hr. reflexivity. }
    rewrite records_after_append by exact Hnl.
    rewrite slice_last_one. reflexivity.
  - destruct (creatable files (log_file config)); [|discriminate].
    unfold write_text in *. cbn [nodes with_nodes] in *.
    rewrite lookup_insert_eq in *.
    destruct (encodable (log_line result)); [|discriminate].
    erewrite read_last_logs_records.
    2:{ unfold read_text. cbn [nodes with_nodes]. rewrite lookup_insert_eq.
        reflexivity. }
    cbn [content fresh_file].
    rewrite (records_after_append [] result eq_refl).
    rewrite slice_last_one. reflexivity.
Qed.

(** The amended C6 on a log of two records. *)
Lemma append_then_read_latest_witness :
  read_last_logs (log_file default_config) 1
    (append_log default_config (outcome "2025-01-02 09:30:00" true)
       (one_file (log_file default_config) two_records))
  = [log_entry (outcome "2025-01-02 09:30:00" true)].
Proof. apply append_then_read_latest; vm_compute; reflexivity. Defined.

Lemma read_last_logs_absent (log_file : text) (limit : Z) (files : FS) :
  path_exists files log_file = false -> read_last_logs log_file limit files = [].
Proof. unfold read_last_logs. by intros ->. Qed.

(** The result of [clear_logs] tells whether the log target is gone. *)
Lemma clear_logs_reports (log_file : text) (files : FS) :
  fst (clear_logs log_file files)
  = negb (path_exists (snd (clear_logs log_file files)) log_file).
Proof.
  unfold clear_logs, os_remove, path_exists.
  destruct (nodes files !! log_file) as [[|f]|] eqn:Hn; cbn [fst snd].
  - by rewrite Hn.
  - destruct (removable f); cbn [fst snd nodes with_nodes].
    + by rewrite lookup_delete_eq.
    + by rewrite Hn.
  - by rewrite Hn.
Qed.

(** A log that is well kept stays so when [append_log] has run. *)
Lemma append_log_keeps (config : AppConfig) (result : ChangeResult) (files : FS) :
  well_kept files (log_file config) = true ->
  well_kept (append_log config result files) (log_file config) = true.
Proof.
  intros Hk. unfold append_log. destruct (negb (log_enabled config)); [exact Hk|].
  unfold open_append.
  destruct (nodes files !! log_file config) as [[|f]|] eqn:Hn; [exact Hk| |].
  - destruct (writable f); [|exact Hk].
    unfold write_text. rewrite Hn. destruct (encodable _); [|exact Hk].
    unfold well_kept in *. rewrite Hn in Hk. cbn [nodes with_nodes].
    rewrite lookup_insert_eq. cbn [readable content].
    apply andb_prop in Hk as [-> _]. cbn [andb].
    unfold newline_terminated, log_line. by rewrite app_assoc, last_snoc.
  - destruct (creatable files (log_file config)); [|exact Hk].
    unfold write_text. cbn [nodes with_nodes]. rewrite lookup_insert_eq.
    destruct (encodable _).
    + unfold well_kept. cbn [nodes with_nodes]. rewrite lookup_insert_eq.
      cbn [readable content fresh_file andb app].
      unfold newline_terminated, log_line. by rewrite last_snoc.
    + unfold well_kept. cbn [nodes with_nodes]. by rewrite lookup_insert_eq.
Qed.

(** C7: [clear_logs] is total and its result tells whether the log target
    is gone; when it returns true, [read_last_logs] returns the empty list
    for every limit. *)
Theorem clear_then_read_empty (log_file : text) (files : FS) :
  fst (clear_logs log_file files) = negb (path_exists (snd (clear_logs log_file files)) log_file)
  /\ (fst (clear_logs log_file files) = true ->
      forall n, read_last_logs log_file n (snd (clear_logs log_file files)) = []).
Proof.
  pose proof (clear_logs_reports log_file files) as H.
  split; [exact H|].
  intros Hok n. apply read_last_logs_absent.
  rewrite Hok in H. symmetry in H. by apply negb_true_iff in H.
Qed.

(** C7 on a log of two records. *)
Lemma clear_then_read_empty_witness :
  read_last_logs (log_file default_config) 50
    (snd (clear_logs (log_file default_config)
            (one_file (log_file default_config) two_records))) = [].
Proof.
  apply (proj2 (clear_then_read_empty (log_file default_config)
                  (one_file (log_file default_config) two_records))).
  vm_compute. reflexivity.
Defined.

(** C10: on a log target that does not exist [clear_logs] changes nothing
    and returns true; hence after a first call that returned true, a
    second call returns true again, changes nothing, and no records are
    left. *)
Theorem clear_logs_idempotent (log_file : text) (files : FS) :
  (path_exists files log_file = false -> clear_logs log_file files = (true, files))
  /\ (forall files',
         clear_logs log_file files = (true, files') ->
         clear_logs log_file files' = (true, files')
         /\ forall n, read_last_logs log_file n files' = []).
Proof.
  split.
  - unfold clear_logs. by intros ->.
  - intros files' H.
    pose proof (clear_logs_reports log_file files) as Hb.
    rewrite H in Hb. cbn [fst snd] in Hb.
    symmetry in Hb. apply negb_true_iff in Hb.
    split; [unfold clear_logs; by rewrite Hb|].
    intros n. by apply read_last_logs_absent.
Qed.

(** C10 on a log of two records. *)
Lemma clear_logs_idempotent_witness :
  let p := log_file default_config in
  let files' := snd (clear_logs p (one_file p two_records)) in
  clear_logs p files' = (true, files') /\ forall n, read_last_logs p n files' = [].
Proof.
  apply (proj2 (clear_logs_idempotent (log_file default_config)
                  (one_file (log_file default_config) two_records))).
  vm_compute. reflexivity.
Defined.

(** ** The retry loop *)

Lemma text_eqb_eq (a b : text) : text_eqb a b = true <-> a = b.
Proof. unfold text_eqb. apply bool_decide_eq_true. Qed.

Lemma text_eqb_neq (a b : text) : text_eqb a b = false <-> a <> b.
Proof. unfold text_eqb. apply bool_decide_eq_false. Qed.

Lemma moved_spec (old_ip new_ip : text) :
  moved old_ip new_ip = true <-> new_ip <> NOT_DEFINED /\ new_ip <> old_ip.
Proof.
  unfold moved. rewrite andb_true_iff, !negb_true_iff, !text_eqb_neq. tauto.
Qed.

Lemma not_moved_spec (old_ip new_ip : text) :
  moved old_ip new_ip = false <-> ~ (new_ip <> NOT_DEFINED /\ new_ip <> old_ip).
Proof.
  rewrite <- moved_spec. destruct (moved old_ip new_ip); split; congruence.
Qed.

Ltac simpl_world :=
  cbn [after_iteration fs signals tor_queries naps with_tor_queries with_naps
         with_signals length].
Ltac simpl_world_in_all :=
  cbn [after_iteration fs signals tor_queries naps with_tor_queries with_naps
         with_signals length] in *.

(** The sleeps [time.sleep] does. *)
Lemma sleep_error_none (clock seconds : Z) :
  (0 <= clock)%Z ->
  sleep_error clock seconds = None <-> sleep_fits clock seconds.
Proof.
  intros Hc. unfold sleep_error, sleep_fits.
  change (Z.quot PyTime_MIN SEC_TO_NS) with (-9223372036)%Z.
  change (Z.quot PyTime_MAX SEC_TO_NS) with 9223372036%Z.
  change PyTime_MAX with 9223372036854775807%Z.
  change SEC_TO_NS with 1000000000%Z.
  destruct (Z.ltb_spec seconds (-9223372036)), (Z.ltb_spec 9223372036 seconds),
    (Z.ltb_spec seconds 0),
    (Z.ltb_spec 9223372036854775807 (clock + seconds * 1000000000));
    cbn [orb]; split; (discriminate || lia || reflexivity).
Qed.

Lemma sleep_error_fits (env : Env) (k : nat) (seconds : Z) :
  sleep_error (Z.of_N (monotonic env k)) seconds = None
  <-> sleep_fits (Z.of_N (monotonic env k)) seconds.
Proof. apply sleep_error_none, N2Z.is_nonneg. Qed.

Section Loop.
Variable env : Env.
Variable self : ChangeWorker.

Local Abbreviation port := (tor_control_port (config self)).
Local Abbreviation proxy := (tor_socks_proxy (config self)).
Local Abbreviation wait := (wait_seconds self).
Local Abbreviation clock k := (Z.of_N (monotonic env k)).

(** One iteration of the loop. *)
Lemma retry_loop_step (r a : nat) (old_ip new_ip note : text) (w : World) :
  retry_loop env self (S r) a old_ip new_ip note w =
  match controller env (length (signals w)) port with
  | Some cause =>
      (Raised (newnym_error port cause),
       with_signals w ((port, Some cause) :: signals w))
  | None =>
      match sleep_error (clock (length (naps w))) wait with
      | Some msg => (Raised msg, with_signals w ((port, None) :: signals w))
      | None =>
          if moved old_ip (resolved env (tor_queries w) proxy)
          then (Returned (resolved env (tor_queries w) proxy, note, Break a),
                after_iteration self w)
          else retry_loop env self r (S a) old_ip
                 (resolved env (tor_queries w) proxy) STAYED_NOTE (after_iteration self w)
      end
  end.
Proof.
  cbn [retry_loop]. unfold bind at 1. unfold tor_newnym.
  destruct (controller env (length (signals w)) port); [reflexivity|].
  unfold bind at 1. unfold sleep. cbn [naps with_signals].
  destruct (sleep_error (clock (length (naps w))) wait); [reflexivity|].
  unfold bind at 1. unfold get_tor_ip. cbn [tor_queries with_naps with_signals].
  destruct (moved old_ip _); reflexivity.
Qed.

(** What the loop leaves behind: the files are untouched, at most one
    signal per iteration was sent, and a failed signal is the reason of
    the exception. *)
Lemma retry_loop_effects (r : nat) :
  forall (a : nat) (old_ip new_ip note : text) (w : World),
  exists sent,
    fs (snd (retry_loop env self r a old_ip new_ip note w)) = fs w
    /\ signals (snd (retry_loop env self r a old_ip new_ip note w)) = sent ++ signals w
    /\ length sent <= r
    /\ match fst (retry_loop env self r a old_ip new_ip note w) with
       | Returned _ => forall p c, In (p, Some c) sent -> False
       | Raised msg =>
           forall p c, In (p, Some c) sent -> p = port /\ msg = newnym_error port c
       end.
Proof.
  induction r as [|r IH]; intros a old_ip new_ip note w.
  - exists []. cbn. repeat split; [lia | tauto].
  - rewrite retry_loop_step.
    destruct (controller env (length (signals w)) port) as [cause|].
    { exists [(port, Some cause)]. cbn. repeat split; [lia|..];
        destruct H as [H|[]]; by inversion H. }
    destruct (sleep_error _ wait).
    { exists [(port, None)]. cbn. repeat split; [lia|..];
        destruct H as [H|[]]; by inversion H. }
    destruct (moved old_ip _).
    { exists [(port, None)]. cbn. repeat split; [lia|].
      intros p c [H|[]]. by inversion H. }
    destruct (IH (S a) old_ip (resolved env (tor_queries w) proxy) STAYED_NOTE
                (after_iteration self w)) as (sent & Hfs & Hsig & Hlen & Hres).
    exists (sent ++ [(port, None)]). rewrite Hfs, Hsig. cbn [after_iteration fs signals
      with_tor_queries with_naps with_signals]. rewrite <- app_assoc.
    repeat split; [rewrite length_app; cbn; lia|].
    destruct (fst (retry_loop env self r (S a) old_ip _ STAYED_NOTE (after_iteration self w))).
    + intros p c Hin. apply in_app_or in Hin as [Hin|[Hin|[]]]; [by eapply Hres|].
      by inversion Hin.
    + intros p c Hin. apply in_app_or in Hin as [Hin|[Hin|[]]]; [by eapply Hres|].
      by inversion Hin.
Qed.

(** When the loop is left by [break]. *)
Lemma retry_loop_break (r : nat) :
  forall (a : nat) (old_ip new_ip note : text) (w : World) (ip nt : text) (k : nat)
         (w' : World),
    retry_loop env self r a old_ip new_ip note w = (Returned (ip, nt, Break k), w') ->
    exists i,
      k = a + i /\ i < r
      /\ (forall j, j <= i -> controller env (length (signals w) + j) port = None)
      /\ (forall j, j <= i -> sleep_error (clock (length (naps w) + j)) wait = None)
      /\ (forall j, j < i -> moved old_ip (resolved env (tor_queries w + j) proxy) = false)
      /\ moved old_ip (resolved env (tor_queries w + i) proxy) = true
      /\ ip = resolved env (tor_queries w + i) proxy
      /\ nt = match i with O => note | S _ => STAYED_NOTE end.
Proof.
  induction r as [|r IH]; intros a old_ip new_ip note w ip nt k w' H.
  - cbn in H. inversion H.
  - rewrite retry_loop_step in H.
    destruct (controller env (length (signals w)) port) as [cause|] eqn:Hc;
      [inversion H|].
    destruct (sleep_error (clock (length (naps w))) wait) eqn:Hw; [inversion H|].
    destruct (moved old_ip (resolved env (tor_queries w) proxy)) eqn:Hm.
    + inversion H; subst. exists 0. rewrite !Nat.add_0_r.
      split; [reflexivity|]. split; [lia|]. split; [|split; [|split; [|by repeat split]]].
      * intros j Hj. replace j with 0 by lia. by rewrite Nat.add_0_r.
      * intros j Hj. replace j with 0 by lia. by rewrite Nat.add_0_r.
      * intros j Hj. lia.
    + apply IH in H as (i & -> & Hi & Hok & Hnap & Hno & Hyes & -> & ->).
      simpl_world_in_all.
      exists (S i). split; [lia|]. split; [lia|].
      split; [|split; [|split; [|split; [|split]]]].
      * intros [|j] Hj; [by rewrite Nat.add_0_r|].
        rewrite <- Nat.add_succ_comm. apply Hok. lia.
      * intros [|j] Hj; [by rewrite Nat.add_0_r|].
        rewrite <- Nat.add_succ_comm. apply Hnap. lia.
      * intros [|j] Hj; [by rewrite Nat.add_0_r|].
        rewrite <- Nat.add_succ_comm. apply Hno. lia.
      * by rewrite <- Nat.add_succ_comm.
      * by rewrite <- Nat.add_succ_comm.
      * by destruct i.
Qed.

(** The loop is left by [break] at the first iteration whose address
    moved, provided it gets there. *)
Lemma retry_loop_first_moved (r : nat) :
  forall (a : nat) (old_ip new_ip note : text) (w : World) (i : nat),
    i < r ->
    (forall j, j <= i -> controller env (length (signals w) + j) port = None) ->
    (forall j, j <= i -> sleep_error (clock (length (naps w) + j)) wait = None) ->
    (forall j, j < i -> moved old_ip (resolved env (tor_queries w + j) proxy) = false) ->
    moved old_ip (resolved env (tor_queries w + i) proxy) = true ->
    exists w',
      retry_loop env self r a old_ip new_ip note w =
      (Returned (resolved env (tor_queries w + i) proxy,
                 match i with O => note | S _ => STAYED_NOTE end,
                 Break (a + i)), w').
Proof.
  induction r as [|r IH]; intros a old_ip new_ip note w i Hi Hok Hnap Hno Hyes; [lia|].
  rewrite retry_loop_step.
  pose proof (Hok 0 ltac:(lia)) as Hc. rewrite Nat.add_0_r in Hc. rewrite Hc.
  pose proof (Hnap 0 ltac:(lia)) as Hw. rewrite Nat.add_0_r in Hw. rewrite Hw.
  destruct i as [|i].
  - rewrite Nat.add_0_r in Hyes. rewrite Hyes, !Nat.add_0_r. eauto.
  - pose proof (Hno 0 ltac:(lia)) as Hm. rewrite Nat.add_0_r in Hm. rewrite Hm.
    destruct (IH (S a) old_ip (resolved env (tor_queries w) proxy) STAYED_NOTE
                (after_iteration self w) i) as (w' & Hrun).
    + lia.
    + intros j Hj. simpl_world. rewrite Nat.add_succ_comm. apply Hok. lia.
    + intros j Hj. simpl_world. rewrite Nat.add_succ_comm. apply Hnap. lia.
    + intros j Hj. simpl_world. rewrite Nat.add_succ_comm. apply Hno. lia.
    + simpl_world. by rewrite Nat.add_succ_comm.
    + exists w'. rewrite Hrun. simpl_world.
      rewrite <- !Nat.add_succ_comm. by destruct i.
Qed.

(** A signal that is refused in an iteration the loop gets to ends the
    loop with the exception of [tor_newnym], and is on record. *)
Lemma retry_loop_refused (r : nat) :
  forall (a : nat) (old_ip new_ip note : text) (w : World) (i : nat) (cause : text),
    i < r ->
    (forall j, j < i -> controller env (length (signals w) + j) port = None) ->
    (forall j, j < i -> sleep_error (clock (length (naps w) + j)) wait = None) ->
    (forall j, j < i -> moved old_ip (resolved env (tor_queries w + j) proxy) = false) ->
    controller env (length (signals w) + i) port = Some cause ->
    exists w' sent,
      retry_loop env self r a old_ip new_ip note w = (Raised (newnym_error port cause), w')
      /\ signals w' = (port, Some cause) :: sent ++ signals w.
Proof.
  induction r as [|r IH]; intros a old_ip new_ip note w i cause Hi Hok Hnap Hno Hc; [lia|].
  rewrite retry_loop_step. destruct i as [|i].
  - rewrite Nat.add_0_r in Hc. rewrite Hc. by eexists _, [].
  - pose proof (Hok 0 ltac:(lia)) as Hc0. rewrite Nat.add_0_r in Hc0. rewrite Hc0.
    pose proof (Hnap 0 ltac:(lia)) as Hw. rewrite Nat.add_0_r in Hw. rewrite Hw.
    pose proof (Hno 0 ltac:(lia)) as Hm. rewrite Nat.add_0_r in Hm. rewrite Hm.
    destruct (IH (S a) old_ip (resolved env (tor_queries w) proxy) STAYED_NOTE
                (after_iteration self w) i cause) as (w' & sent & Hrun & Hsig).
    + lia.
    + intros j Hj. simpl_world. rewrite Nat.add_succ_comm. apply Hok. lia.
    + intros j Hj. simpl_world. rewrite Nat.add_succ_comm. apply Hnap. lia.
    + intros j Hj. simpl_world. rewrite Nat.add_succ_comm. apply Hno. lia.
    + simpl_world. by rewrite Nat.add_succ_comm.
    + exists w', (sent ++ [(port, None)]). split; [exact Hrun|].
      rewrite Hsig. simpl_world. by rewrite <- app_assoc.
Qed.

(** The address the loop ends with is the last one that was resolved. *)
Lemma retry_loop_last (r : nat) :
  forall (a : nat) (old_ip new_ip note : text) (w : World) (ip nt : text)
         (ex : loop_exit) (w' : World),
    retry_loop env self r a old_ip new_ip note w = (Returned (ip, nt, ex), w') ->
    1 <= tor_queries w ->
    new_ip = resolved env (tor_queries w - 1) proxy ->
    1 <= tor_queries w' /\ ip = resolved env (tor_queries w' - 1) proxy.
Proof.
  induction r as [|r IH]; intros a old_ip new_ip note w ip nt ex w' H Hq Hnew.
  - cbn in H. inversion H; subst. by split.
  - rewrite retry_loop_step in H.
    destruct (controller env (length (signals w)) port); [inversion H|].
    destruct (sleep_error _ wait); [inversion H|].
    destruct (moved old_ip (resolved env (tor_queries w) proxy)).
    + inversion H; subst. cbn. split; [lia|]. by rewrite Nat.sub_0_r.
    + apply IH in H; [exact H|cbn; lia|]. cbn. by rewrite Nat.sub_0_r.
Qed.

End Loop.

(** ** The worker around the loop *)

Lemma bind_returned {A B} (m : M A) (k : A -> M B) (w w' : World) (a : A) :
  m w = (Returned a, w') -> bind m k w = k a w'.
Proof. unfold bind. by intros ->. Qed.

Lemma bind_raised {A B} (m : M A) (k : A -> M B) (w w' : World) (msg : text) :
  m w = (Raised msg, w') -> bind m k w = (Raised msg, w').
Proof. unfold bind. by intros ->. Qed.

(** The steps outside the loop always return and leave the signals, the
    proxied resolutions and the files as they are. *)
Lemma get_location_returns (env : Env) (ip : text) (w : World) :
  exists loc w', get_location_for_ip env ip w = (Returned loc, w') /\ untouched w w'.
Proof.
  unfold get_location_for_ip, untouched. destruct ip as [|c ip]; [by eexists _, _|].
  destruct (text_eqb _ _); by eexists _, _.
Qed.

Lemma get_location_quiet (env : Env) (ip : text) (w : World) :
  exists loc w', get_location_for_ip env ip w = (Returned loc, w') /\ quiet w w'.
Proof.
  unfold get_location_for_ip, quiet. destruct ip as [|c ip]; [by eexists _, _|].
  destruct (text_eqb _ _); by eexists _, _.
Qed.

Lemma send_telegram_returns (config : AppConfig) (message : text) (w : World) :
  exists w', send_telegram_notification config message w = (Returned tt, w')
             /\ untouched w w'.
Proof.
  unfold send_telegram_notification, untouched.
  destruct (negb _); [by eexists|].
  destruct (telegram_bot_token config); [by eexists|].
  destruct (telegram_chat_id config); by eexists.
Qed.

Section Run.
Variable env : Env.
Variable self : ChangeWorker.

Local Abbreviation port := (tor_control_port (config self)).
Local Abbreviation proxy := (tor_socks_proxy (config self)).
Local Abbreviation wait := (wait_seconds self).

(** [run], split at the loop. *)
Lemma run_from_entry (w : World) :
  exists w3,
    loop_entry env self w = (Returned (resolved env (tor_queries w) proxy), w3)
    /\ fs w3 = fs w /\ signals w3 = signals w /\ tor_queries w3 = S (tor_queries w)
    /\ naps w3 = naps w
    /\ match retry_loop env self (attempts self) 0
               (resolved env (tor_queries w) proxy)
               (resolved env (tor_queries w) proxy) [] w3 with
       | (Raised msg, w4) => run env self w = (Failure msg, w4)
       | (Returned (ip, nt, ex), w4) =>
           exists res w5,
             run env self w = (Done res, w5)
             /\ old_tor_ip res = resolved env (tor_queries w) proxy
             /\ new_tor_ip res = ip
             /\ note res = nt
             /\ changed res =
                  negb (text_eqb ip NOT_DEFINED)
                  && negb (text_eqb (resolved env (tor_queries w) proxy) NOT_DEFINED)
                  && negb (text_eqb ip (resolved env (tor_queries w) proxy))
             /\ signals w5 = signals w4
             /\ tor_queries w5 = tor_queries w4
             /\ fs w5 = append_log (config self) res (fs w4)
       end.
Proof.
  unfold run, attempt_change, loop_entry.
  erewrite !(bind_returned (get_real_ip env)) by reflexivity.
  erewrite !(bind_returned (get_tor_ip env proxy)) by reflexivity.
  set (old_ip := resolved env (tor_queries (with_real_queries w _)) proxy).
  change (resolved env (tor_queries w) proxy) with old_ip.
  destruct (get_location_quiet env old_ip
              (with_tor_queries (with_real_queries w (S (real_queries w)))
                 (S (tor_queries (with_real_queries w (S (real_queries w)))))))
    as (old_loc & w3 & Hloc & Hfs & Hsig & Hq & _ & Hnaps & _).
  erewrite !(bind_returned (get_location_for_ip env old_ip)) by exact Hloc.
  exists w3. split; [reflexivity|].
  split; [exact Hfs|]. split; [exact Hsig|]. split; [exact Hq|]. split; [exact Hnaps|].
  destruct (retry_loop env self (attempts self) 0 old_ip old_ip [] w3)
    as [[[[ip nt] ex]|msg] w4] eqn:Hloop.
  - erewrite bind_returned by exact Hloop. cbn [fst snd].
    destruct (get_location_returns env ip w4) as (new_loc & w5 & Hloc' & Hfs' & Hsig' & Hq').
    erewrite bind_returned by exact Hloc'.
    erewrite bind_returned by reflexivity.
    erewrite bind_returned by reflexivity.
    match goal with
    | |- context [bind (send_telegram_notification ?c ?m) _ ?w0] =>
        destruct (send_telegram_returns c m w0) as (w6 & Htg & Hfs6 & Hsig6 & Hq6)
    end.
    erewrite bind_returned by exact Htg.
    unfold ret. eexists _, w6. split; [reflexivity|].
    cbn [old_tor_ip new_tor_ip note changed].
    repeat split.
    + rewrite Hsig6. cbn. exact Hsig'.
    + rewrite Hq6. cbn. exact Hq'.
    + rewrite Hfs6. cbn. by rewrite Hfs'.
  - erewrite bind_raised by exact Hloop. reflexivity.
Qed.

Lemma run_unfold (w : World) :
  exists w3,
    fs w3 = fs w /\ signals w3 = signals w /\ tor_queries w3 = S (tor_queries w)
    /\ match retry_loop env self (attempts self) 0
               (resolved env (tor_queries w) proxy)
               (resolved env (tor_queries w) proxy) [] w3 with
       | (Raised msg, w4) => run env self w = (Failure msg, w4)
       | (Returned (ip, nt, ex), w4) =>
           exists res w5,
             run env self w = (Done res, w5)
             /\ old_tor_ip res = resolved env (tor_queries w) proxy
             /\ new_tor_ip res = ip
             /\ note res = nt
             /\ changed res =
                  negb (text_eqb ip NOT_DEFINED)
                  && negb (text_eqb (resolved env (tor_queries w) proxy) NOT_DEFINED)
                  && negb (text_eqb ip (resolved env (tor_queries w) proxy))
             /\ signals w5 = signals w4
             /\ tor_queries w5 = tor_queries w4
             /\ fs w5 = append_log (config self) res (fs w4)
       end.
Proof.
  destruct (run_from_entry w) as (w3 & _ & Hfs & Hsig & Hq & _ & H). by exists w3.
Qed.

End Run.

Lemma signalled_app (w w' : World) (sent : list (Z * option text)) :
  signals w' = sent ++ signals w -> signalled w w' = sent.
Proof.
  intros H. unfold signalled. rewrite H, length_app.
  replace (length sent + length (signals w) - length (signals w)) with (length sent) by lia.
  by rewrite take_app_length.
Qed.

Section Claims.
Variable env : Env.
Variable self : ChangeWorker.

Local Abbreviation port := (tor_control_port (config self)).
Local Abbreviation proxy := (tor_socks_proxy (config self)).
Local Abbreviation wait := (wait_seconds self).

(** The signals of a run are those of its loop. *)
Lemma run_signals (w : World) :
  exists sent,
    signals (snd (run env self w)) = sent ++ signals w
    /\ length sent <= attempts self
    /\ (forall p c,
           In (p, Some c) sent ->
           p = port
           /\ fst (run env self w) = Failure (newnym_error port c)
           /\ fs (snd (run env self w)) = fs w).
Proof.
  destruct (run_unfold env self w) as (w3 & Hfs & Hsig & Hq & Hrun).
  destruct (retry_loop_effects env self (attempts self) 0
              (resolved env (tor_queries w) proxy)
              (resolved env (tor_queries w) proxy) [] w3)
    as (sent & Hfs4 & Hsig4 & Hlen & Hres).
  destruct (retry_loop env self (attempts self) 0 _ _ [] w3)
    as [[[[ip nt] ex]|msg] w4]; cbn [fst snd] in *.
  - destruct Hrun as (res & w5 & -> & _ & _ & _ & _ & Hsig5 & _ & _). cbn [fst snd].
    exists sent. rewrite Hsig5, Hsig4, Hsig.
    split; [reflexivity|]. split; [exact Hlen|].
    intros p c Hin. destruct (Hres p c Hin).
  - rewrite Hrun. cbn [fst snd]. exists sent. rewrite Hsig4, Hsig, Hfs4, Hfs.
    split; [reflexivity|]. split; [exact Hlen|].
    intros p c Hin. destruct (Hres p c Hin) as [-> ->]. by repeat split.
Qed.

(** What an outcome says, in terms of what the run resolved. *)
Lemma run_done (w w' : World) (res : ChangeResult) :
  run env self w = (Done res, w') ->
  changed res =
    negb (text_eqb (new_tor_ip res) NOT_DEFINED)
    && negb (text_eqb (old_tor_ip res) NOT_DEFINED)
    && negb (text_eqb (new_tor_ip res) (old_tor_ip res))
  /\ old_tor_ip res = resolved env (tor_queries w) proxy
  /\ new_tor_ip res = resolved env (tor_queries w' - 1) proxy.
Proof.
  intros H.
  destruct (run_unfold env self w) as (w3 & Hfs & Hsig & Hq & Hrun).
  destruct (retry_loop env self (attempts self) 0 _ _ [] w3)
    as [[[[ip nt] ex]|msg] w4] eqn:Hloop.
  - destruct Hrun as (res' & w5 & Hrun & Hold & Hnew & _ & Hch & _ & Hq5 & _).
    rewrite Hrun in H. inversion H; subst res' w5. clear H.
    apply retry_loop_last in Hloop as [Hq4 Hip].
    2:{ lia. }
    2:{ rewrite Hq. cbn. by rewrite Nat.sub_0_r. }
    split; [|split].
    + by rewrite Hch, Hold, Hnew.
    + exact Hold.
    + by rewrite Hnew, Hq5.
  - rewrite Hrun in H. inversion H.
Qed.

(** A signal that is refused in an iteration the run gets to makes the
    run fail, and is among the signals of the run. *)
Lemma run_refused (w : World) (i : nat) (cause : text) :
  i < attempts self ->
  (forall j, j < i -> controller env (length (signals w) + j) port = None) ->
  (forall j, j < i ->
      sleep_fits (Z.of_N (monotonic env (length (naps w) + j))) wait) ->
  (forall j, j < i ->
      moved (resolved env (tor_queries w) proxy)
        (resolved env (S (tor_queries w) + j) proxy) = false) ->
  controller env (length (signals w) + i) port = Some cause ->
  fst (run env self w) = Failure (newnym_error port cause)
  /\ In (port, Some cause) (signalled w (snd (run env self w))).
Proof.
  intros Hi Hok Hnap Hno Hc.
  destruct (run_from_entry env self w) as (w3 & _ & Hfs & Hsig & Hq & Hnaps & Hrun).
  pose proof (retry_loop_refused env self (attempts self) 0
                (resolved env (tor_queries w) proxy)
                (resolved env (tor_queries w) proxy) [] w3 i cause Hi) as Hloop.
  rewrite Hsig, Hq, Hnaps in Hloop.
  destruct (Hloop Hok (fun j Hj => proj2 (sleep_error_fits env _ _) (Hnap j Hj)) Hno Hc)
    as (w4 & sent & Hl & Hs).
  rewrite Hl in Hrun. rewrite Hrun. cbn [fst snd]. split; [reflexivity|].
  rewrite (signalled_app w w4 ((port, Some cause) :: sent)); [by left | exact Hs].
Qed.

(** C1: with a retry count R that is not negative, a run invokes
    [tor_newnym] at most R+1 times; the retry loop, entered with the
    address [old_ip], breaks in iteration i exactly when i is the first
    iteration whose newly resolved address is defined and differs from
    [old_ip] (and the loop gets that far: every signal up to then is
    delivered and every sleep up to then is one that [time.sleep]
    does); and the run enters that loop with the address it resolved
    first, after its lookups, so that a break of the loop entered there
    ends the run with an outcome that carries the address of the
    breaking iteration. *)
Theorem newnym_bound_and_first_break (w : World) :
  (0 <= retries self)%Z ->
  (Z.of_nat (length (signalled w (snd (run env self w)))) <= retries self + 1)%Z
  /\ (forall (old_ip : text) (w1 : World) (i : nat),
      (exists new_ip nt w2,
          retry_loop env self (attempts self) 0 old_ip old_ip [] w1
          = (Returned (new_ip, nt, Break i), w2))
      <->
      ((Z.of_nat i <= retries self)%Z
       /\ (forall j, j <= i -> controller env (length (signals w1) + j) port = None)
       /\ (forall j, j <= i ->
              sleep_fits (Z.of_N (monotonic env (length (naps w1) + j))) wait)
       /\ (forall j, j < i ->
              ~ (resolved env (tor_queries w1 + j) proxy <> NOT_DEFINED
                 /\ resolved env (tor_queries w1 + j) proxy <> old_ip))
       /\ resolved env (tor_queries w1 + i) proxy <> NOT_DEFINED
       /\ resolved env (tor_queries w1 + i) proxy <> old_ip))
  /\ exists w1,
      loop_entry env self w = (Returned (resolved env (tor_queries w) proxy), w1)
      /\ signals w1 = signals w
      /\ naps w1 = naps w
      /\ tor_queries w1 = S (tor_queries w)
      /\ forall (i : nat) (new_ip nt : text) (w2 : World),
          retry_loop env self (attempts self) 0
            (resolved env (tor_queries w) proxy)
            (resolved env (tor_queries w) proxy) [] w1
          = (Returned (new_ip, nt, Break i), w2) ->
          exists res w',
            run env self w = (Done res, w')
            /\ old_tor_ip res = resolved env (tor_queries w) proxy
            /\ new_tor_ip res = new_ip
            /\ new_ip = resolved env (S (tor_queries w) + i) proxy
            /\ signals w' = signals w2.
Proof.
  intros HR. split; [|split].
  - destruct (run_signals w) as (sent & Hsig & Hlen & _).
    rewrite (signalled_app _ _ _ Hsig). unfold attempts in Hlen. lia.
  - intros old_ip w1 i. split.
    + intros (new_ip & nt & w2 & H).
      apply retry_loop_break in H as (i' & Hi & Hlt & Hok & Hnap & Hno & Hyes & _ & _).
      cbn in Hi. subst i'. unfold attempts in Hlt.
      split; [lia|]. split; [exact Hok|]. split; [|split].
      * intros j Hj. apply sleep_error_fits, Hnap, Hj.
      * intros j Hj. apply not_moved_spec, Hno, Hj.
      * by apply moved_spec.
    + intros (Hi & Hok & Hnap & Hno & Hyes).
      destruct (retry_loop_first_moved env self (attempts self) 0 old_ip old_ip [] w1 i)
        as (w2 & H).
      * unfold attempts. lia.
      * exact Hok.
      * intros j Hj. apply sleep_error_fits, Hnap, Hj.
      * intros j Hj. apply not_moved_spec, Hno, Hj.
      * by apply moved_spec.
      * eexists _, _, w2. exact H.
  - destruct (run_from_entry env self w) as (w1 & Hentry & _ & Hsig & Hq & Hnaps & Hrun).
    exists w1. split; [exact Hentry|]. split; [exact Hsig|]. split; [exact Hnaps|].
    split; [exact Hq|].
    intros i new_ip nt w2 Hloop. rewrite Hloop in Hrun.
    destruct Hrun as (res & w' & Hrun & Hold & Hnew & _ & _ & Hsig' & _).
    exists res, w'. split; [exact Hrun|]. split; [exact Hold|]. split; [exact Hnew|].
    split; [|exact Hsig'].
    apply retry_loop_break in Hloop as (i' & Hi & _ & _ & _ & _ & _ & Hip & _).
    cbn in Hi. subst i'. by rewrite Hip, Hq.
Qed.

(** C2: when a run ends with an outcome, its changed flag is true
    exactly when the pre-rotation address and the post-rotation address
    are both defined and unequal; these are the first and the last
    proxied address the run resolved. *)
Theorem changed_iff_defined_and_unequal (w w' : World) (res : ChangeResult) :
  run env self w = (Done res, w') ->
  (changed res = true <->
   old_tor_ip res <> NOT_DEFINED /\ new_tor_ip res <> NOT_DEFINED
   /\ old_tor_ip res <> new_tor_ip res)
  /\ old_tor_ip res = resolved env (tor_queries w) proxy
  /\ new_tor_ip res = resolved env (tor_queries w' - 1) proxy.
Proof.
  intros H. apply run_done in H as (Hch & Hold & Hnew).
  split; [|by split].
  rewrite Hch, !andb_true_iff, !negb_true_iff, !text_eqb_neq.
  intuition congruence.
Qed.

(** C3: when a NEWNYM attempt of a run fails, the run emits the failure
    whose message carries the control port and the cause, and the files,
    the log among them, are as they were. *)
Theorem newnym_failure_fails_run (w : World) (p : Z) (cause : text) :
  In (p, Some cause) (signalled w (snd (run env self w))) ->
  fst (run env self w) =
    Failure (py "Failed to connect to Tor control port " ++ str_int port
             ++ py ": " ++ cause)
  /\ p = port
  /\ fs (snd (run env self w)) = fs w.
Proof.
  intros Hin. destruct (run_signals w) as (sent & Hsig & _ & Hfail).
  rewrite (signalled_app _ _ _ Hsig) in Hin.
  destruct (Hfail p cause Hin) as (Hp & Hrun & Hfs). by repeat split.
Qed.

(** C4 (amended): every iteration compares the newly resolved address
    with [old_ip], the address resolved before the loop: when the loop
    breaks in iteration i, no earlier iteration resolved an address that
    is defined and differs from [old_ip], and the final address is the
    one resolved in iteration i, is defined and differs from [old_ip]. *)
Theorem break_differs_from_first (old_ip new_ip nt : text) (i : nat) (w w' : World) :
  retry_loop env self (attempts self) 0 old_ip old_ip [] w
  = (Returned (new_ip, nt, Break i), w') ->
  new_ip = resolved env (tor_queries w + i) proxy
  /\ new_ip <> NOT_DEFINED
  /\ new_ip <> old_ip
  /\ forall j, j < i -> ~ (resolved env (tor_queries w + j) proxy <> NOT_DEFINED
                           /\ resolved env (tor_queries w + j) proxy <> old_ip).
Proof.
  intros H.
  apply retry_loop_break in H as (i' & Hi & _ & _ & _ & Hno & Hyes & Hip & _).
  cbn in Hi. subst i'. apply moved_spec in Hyes as [H1 H2].
  rewrite Hip. repeat split; [exact H1 | exact H2 |].
  intros j Hj. apply not_moved_spec, Hno, Hj.
Qed.

(** C9 (amended): when the pre-rotation address is defined, an earlier
    iteration left the address unchanged or undetermined, and iteration
    i > 0 is the first to resolve a defined address that differs (the
    run getting that far: every signal up to then is delivered and
    every sleep up to then is one that [time.sleep] does), the outcome
    has changed = true and still carries the note set by the earlier
    iteration, which is not empty. *)
Theorem stale_note_after_late_success (w : World) (i : nat) :
  0 < i ->
  (Z.of_nat i <= retries self)%Z ->
  resolved env (tor_queries w) proxy <> NOT_DEFINED ->
  (forall j, j <= i -> controller env (length (signals w) + j) port = None) ->
  (forall j, j <= i -> sleep_fits (Z.of_N (monotonic env (length (naps w) + j))) wait) ->
  (forall j, j < i ->
      ~ (resolved env (S (tor_queries w) + j) proxy <> NOT_DEFINED
         /\ resolved env (S (tor_queries w) + j) proxy
            <> resolved env (tor_queries w) proxy)) ->
  resolved env (S (tor_queries w) + i) proxy <> NOT_DEFINED ->
  resolved env (S (tor_queries w) + i) proxy <> resolved env (tor_queries w) proxy ->
  exists res w',
    run env self w = (Done res, w')
    /\ changed res = true
    /\ note res = STAYED_NOTE
    /\ note res <> []
    /\ new_tor_ip res = resolved env (S (tor_queries w) + i) proxy.
Proof.
  intros Hi HR Hold Hok Hnap Hno Hy1 Hy2.
  destruct (run_from_entry env self w) as (w3 & _ & Hfs & Hsig & Hq & Hnaps & Hrun).
  destruct (retry_loop_first_moved env self (attempts self) 0
              (resolved env (tor_queries w) proxy)
              (resolved env (tor_queries w) proxy) [] w3 i) as (w4 & Hloop).
  - unfold attempts. lia.
  - rewrite Hsig. exact Hok.
  - rewrite Hnaps. intros j Hj. apply sleep_error_fits, Hnap, Hj.
  - rewrite Hq. intros j Hj. apply not_moved_spec, Hno, Hj.
  - rewrite Hq. by apply moved_spec.
  - rewrite Hloop, Hq in Hrun.
    destruct Hrun as (res & w5 & Hrun & _ & Hnew & Hnote & Hch & _).
    exists res, w5. split; [exact Hrun|].
    destruct i as [|i]; [lia|].
    repeat split.
    + rewrite Hch, !andb_true_iff, !negb_true_iff, !text_eqb_neq. by repeat split.
    + exact Hnote.
    + rewrite Hnote. discriminate.
    + exact Hnew.
Qed.

End Claims.

(** ** The runs of the examples *)

(** The scenario of retries = 2 and the proxied addresses 1.1.1.1, 1.1.1.1,
    2.2.2.2: two signals, and an outcome with the new address and
    changed = true. *)
Example two_signals_then_changed :
  let out := run steady_then_moved (worker 0 2) (start empty_fs) in
  match fst out with
  | Done res =>
      length (signals (snd out)) = 2
      /\ changed res = true
      /\ new_tor_ip res = A2
      /\ read_last_logs (log_file default_config) 1 (fs (snd out)) = [log_entry res]
  | Failure _ => False
  end.
Proof. vm_compute. by repeat split. Qed.

(** The bound of C1 in that scenario. *)
Lemma newnym_bound_and_first_break_witness :
  (Z.of_nat (length (signalled (start empty_fs)
                       (snd (run steady_then_moved (worker 0 2) (start empty_fs)))))
   <= 2 + 1)%Z.
Proof.
  apply (proj1 (newnym_bound_and_first_break steady_then_moved (worker 0 2)
                  (start empty_fs) ltac:(vm_compute; discriminate))).
Defined.

(** C2 in that scenario. *)
Lemma changed_iff_defined_and_unequal_witness :
  let res := moved_outcome in
  (changed res = true <->
   old_tor_ip res <> NOT_DEFINED /\ new_tor_ip res <> NOT_DEFINED
   /\ old_tor_ip res <> new_tor_ip res)
  /\ old_tor_ip res = A1
  /\ new_tor_ip res = A2.
Proof.
  apply (changed_iff_defined_and_unequal steady_then_moved (worker 0 2) (start empty_fs)
           (snd (run steady_then_moved (worker 0 2) (start empty_fs)))).
  vm_compute. reflexivity.
Defined.

(** C3 on a run whose second signal is refused. *)
Lemma newnym_failure_fails_run_witness :
  let out := run refused_at_second (worker 8 2) (start empty_fs) in
  fst out = Failure (py "Failed to connect to Tor control port 9051: [Errno 111] Connection refused")
  /\ fs (snd out) = empty_fs.
Proof.
  destruct (newnym_failure_fails_run refused_at_second (worker 8 2) (start empty_fs)
              9051%Z (py "[Errno 111] Connection refused")) as (H1 & _ & H2).
  - vm_compute. left. reflexivity.
  - split; [exact H1 | exact H2].
Defined.

(** C4, as stated, fails: no environment makes the loop break, or the
    outcome say changed, with a final address equal to the pre-rotation
    address; and on the addresses 1.1.1.1, undetermined, 1.1.1.1 the
    second iteration, whose address differs from the one held at its start
    and equals the first, does not break the loop. *)
Lemma no_break_back_on_first_address :
  ~ (exists env self old_ip new_ip nt i w w',
        retry_loop env self (attempts self) 0 old_ip old_ip [] w
        = (Returned (new_ip, nt, Break i), w')
        /\ new_ip = old_ip)
  /\ ~ (exists env self w w' res,
           run env self w = (Done res, w')
           /\ changed res = true
           /\ new_tor_ip res = old_tor_ip res)
  /\ fst (retry_loop undetermined_then_back (worker 8 1) (attempts (worker 8 1)) 0 A1 A1 []
          at_loop_entry)
     = Returned (A1, STAYED_NOTE, RangeEnd).
Proof.
  split; [|split].
  - intros (env & self & old_ip & new_ip & nt & i & w & w' & H & Heq).
    apply retry_loop_break in H as (i' & _ & _ & _ & _ & _ & Hyes & Hip & _).
    apply moved_spec in Hyes as [_ Hne]. congruence.
  - intros (env & self & w & w' & res & H & Hch & Heq).
    apply run_done in H as (Hc & _ & _). rewrite Hch, Heq in Hc.
    symmetry in Hc. rewrite !andb_true_iff, !negb_true_iff, !text_eqb_neq in Hc.
    by destruct Hc as [_ Hne].
  - vm_compute. reflexivity.
Qed.

(** The amended C4 on the addresses 1.1.1.1, 1.1.1.1, 2.2.2.2. *)
Lemma break_differs_from_first_witness :
  A2 = resolved steady_then_moved (1 + 1) (tor_socks_proxy default_config)
  /\ A2 <> NOT_DEFINED
  /\ A2 <> A1.
Proof.
  destruct (break_differs_from_first steady_then_moved (worker 0 2) A1 A2 STAYED_NOTE 1
              at_loop_entry
              (snd (retry_loop steady_then_moved (worker 0 2) (attempts (worker 0 2)) 0 A1 A1 []
                     at_loop_entry)))
    as (H1 & H2 & H3 & _).
  - vm_compute. reflexivity.
  - split; [exact H1 | split; [exact H2 | exact H3]].
Defined.

(** C9, as stated, fails: with an undetermined pre-rotation address, an
    undetermined first iteration and a second iteration that resolves
    2.2.2.2, the loop breaks in the second iteration, and the outcome
    carries the note but has changed = false. *)
Lemma late_success_unchanged_flag :
  fst (retry_loop undetermined_at_first (worker 8 2) (attempts (worker 8 2)) 0
         NOT_DEFINED NOT_DEFINED [] at_loop_entry)
  = Returned (A2, STAYED_NOTE, Break 1)
  /\ exists res,
      fst (run undetermined_at_first (worker 8 2) (start empty_fs)) = Done res
      /\ old_tor_ip res = NOT_DEFINED
      /\ new_tor_ip res = A2
      /\ note res = STAYED_NOTE
      /\ changed res = false.
Proof.
  split; [vm_compute; reflexivity|].
  exists late_outcome.
  vm_compute. by repeat split.
Qed.

(** The amended C9 on the addresses 1.1.1.1, 1.1.1.1, 2.2.2.2. *)
Lemma stale_note_after_late_success_witness :
  exists res w',
    run steady_then_moved (worker 0 2) (start empty_fs) = (Done res, w')
    /\ changed res = true
    /\ note res = STAYED_NOTE
    /\ note res <> []
    /\ new_tor_ip res = A2.
Proof.
  apply (stale_note_after_late_success steady_then_moved (worker 0 2) (start empty_fs) 1).
  - lia.
  - vm_compute. discriminate.
  - vm_compute. discriminate.
  - intros j _. cbn. by destruct j.
  - intros j Hj. split; [cbn; lia|]. cbn. lia.
  - intros j Hj. assert (j = 0) as -> by lia. vm_compute. intros [_ H]. by apply H.
  - vm_compute. discriminate.
  - vm_compute. discriminate.
Defined.

(** ** The reputation check *)

(** [check_url_reputation] returns no verdict exactly when the submission
    was accepted and the analysis request was answered with a status
    other than 200. *)
Lemma check_url_reputation_none_iff (vt : VirusTotal) (url api_key : text) :
  check_url_reputation vt url api_key = None <->
  url <> [] /\ api_key <> []
  /\ exists analysis_id status body,
      scan vt = Response 200 (Field analysis_id)
      /\ analysis vt analysis_id = Response status body
      /\ status <> 200%Z.
Proof.
  unfold check_url_reputation. split.
  - destruct api_key as [|k ks]; [discriminate|]. destruct url as [|u us]; [discriminate|].
    destruct (scan vt) as [| e | status body]; try discriminate.
    destruct (Z.eqb_spec status 200) as [->|?]; [|discriminate]. cbn [negb].
    destruct body as [e | analysis_id]; [discriminate|].
    destruct (analysis vt analysis_id) as [| e | status' body'] eqn:Ha; try discriminate.
    destruct (Z.eqb_spec status' 200) as [->|Hne].
    + destruct body'; discriminate.
    + intros _. repeat split; try discriminate. by exists analysis_id, status', body'.
  - intros (Hu & Hk & analysis_id & status & body & Hs & Ha & Hne).
    destruct api_key as [|k ks]; [done|]. destruct url as [|u us]; [done|].
    rewrite Hs. cbn. rewrite Ha. by destruct (Z.eqb_spec status 200).
Qed.

(** C8 (fails on an analysis status other than 200): the check is to
    return a verdict whatever the two HTTP steps do; when the submission
    is accepted and the analysis request is answered with status 404, it
    returns none. *)
Theorem check_url_reputation_no_verdict :
  check_url_reputation (vt_analysis_status 404) (py "http://example.com/") (py "0123abcd")
  = None.
Proof. reflexivity. Qed.

(** * Further properties *)

(** ** [core.py]: address and location lookups *)

Lemma first_address_unfold (fetch : text -> option dict) (u : text) (rest : list text) :
  no_address (fetch u) ->
  first_address fetch (u :: rest) = first_address fetch rest.
Proof.
  unfold no_address. cbn [first_address].
  destruct (fetch u) as [d|]; [|reflexivity]. by intros (-> & -> & ->).
Qed.

(** What [get_tor_ip] returns is the sentinel or a value that one of the
    endpoints answered under one of the three keys; and it is the sentinel
    when no endpoint yields an address. *)
Theorem first_address_provenance (fetch : text -> option dict) (candidates : list text) :
  (first_address fetch candidates = NOT_DEFINED
   \/ exists u data k,
       In u candidates /\ fetch u = Some data
       /\ In k [py "IP"; py "origin"; py "ip"]
       /\ dict_get k data = Some (first_address fetch candidates))
  /\ ((forall u, In u candidates -> no_address (fetch u)) ->
      first_address fetch candidates = NOT_DEFINED).
Proof.
  split.
  - induction candidates as [|u rest IH]; [by left|].
    cbn [first_address].
    destruct (fetch u) as [data|] eqn:Hu.
    + destruct (dict_get (py "IP") data) as [a|] eqn:H1.
      { right. exists u, data, (py "IP").
        split; [by left|]. split; [exact Hu|]. split; [by left | exact H1]. }
      destruct (dict_get (py "origin") data) as [a|] eqn:H2.
      { right. exists u, data, (py "origin").
        split; [by left|]. split; [exact Hu|]. split; [right; by left | exact H2]. }
      destruct (dict_get (py "ip") data) as [a|] eqn:H3.
      { right. exists u, data, (py "ip").
        split; [by left|]. split; [exact Hu|]. split; [right; right; by left | exact H3]. }
      destruct IH as [IH|(v & d & k & Hv & Hd & Hk & Hg)]; [by left|].
      right. exists v, d, k.
      split; [by right|]. split; [exact Hd|]. split; [exact Hk | exact Hg].
    + destruct IH as [IH|(v & d & k & Hv & Hd & Hk & Hg)]; [by left|].
      right. exists v, d, k.
      split; [by right|]. split; [exact Hd|]. split; [exact Hk | exact Hg].
  - induction candidates as [|u rest IH]; intros Hall; [reflexivity|].
    rewrite first_address_unfold by (apply Hall; by left).
    apply IH. intros v Hv. apply Hall. by right.
Qed.

(** The first endpoint that yields an address decides, and within its
    answer the key [IP] goes before [origin], and [origin] before [ip]. *)
Theorem first_address_falls_through (fetch : text -> option dict)
        (before after : list text) (u : text) (data : dict) :
  (forall v, In v before -> no_address (fetch v)) ->
  fetch u = Some data ->
  (forall a, dict_get (py "IP") data = Some a ->
             first_address fetch (before ++ u :: after) = a)
  /\ (forall a, dict_get (py "IP") data = None ->
                dict_get (py "origin") data = Some a ->
                first_address fetch (before ++ u :: after) = a)
  /\ (forall a, dict_get (py "IP") data = None ->
                dict_get (py "origin") data = None ->
                dict_get (py "ip") data = Some a ->
                first_address fetch (before ++ u :: after) = a).
Proof.
  intros Hbefore Hu.
  assert (Hskip : first_address fetch (before ++ u :: after)
                  = first_address fetch (u :: after)).
  { induction before as [|v before IH]; [reflexivity|].
    cbn [app]. rewrite first_address_unfold by (apply Hbefore; by left).
    apply IH. intros x Hx. apply Hbefore. by right. }
  rewrite Hskip. cbn [first_address]. rewrite Hu.
  repeat split.
  - by intros a ->.
  - by intros a -> ->.
  - by intros a -> -> ->.
Qed.

(** The second endpoint answers with [origin] after the first failed. *)
Lemma first_address_falls_through_witness :
  first_address (tor_echo only_httpbin 0 (py "socks5h://127.0.0.1:9050")) urls
  = py "1.2.3.4".
Proof.
  apply (proj1 (proj2 (first_address_falls_through
                         (tor_echo only_httpbin 0 (py "socks5h://127.0.0.1:9050"))
                         [py "https://check.torproject.org/api/ip"]
                         [py "https://api.ipify.org?format=json"]
                         (py "https://httpbin.org/ip")
                         [(py "origin", py "1.2.3.4")]
                         ltac:(intros v [<-|[]]; vm_compute; exact I)
                         ltac:(vm_compute; reflexivity))));
    vm_compute; reflexivity.
Defined.

(** With every endpoint down, the proxied address is the sentinel. *)
Lemma first_address_provenance_witness :
  first_address (fun _ => None) urls = NOT_DEFINED.
Proof.
  apply (proj2 (first_address_provenance (fun _ => None) urls)).
  intros u _. exact I.
Defined.

(** [get_location_for_ip] never raises.  For the empty address and for
    the sentinel it asks nobody and changes nothing; for any other
    address it does one lookup, for that address, and nothing else.
    Each component of the pair is the sentinel or the value that a
    lookup answered with status 200 holds under [country_name], or
    [city] respectively; it is the sentinel when the key is absent or
    holds the empty string, and the pair is the pair of sentinels when
    the service is not reached, answers with another status, or with a
    body that is no JSON. *)
Theorem location_is_sentinel_or_answered (env : Env) (ip : text) (w : World) :
  exists country city w',
    get_location_for_ip env ip w = (Returned (country, city), w')
    /\ quiet w w'
    /\ (ip = [] \/ ip = NOT_DEFINED -> w' = w)
    /\ (ip <> [] -> ip <> NOT_DEFINED -> w' = with_geo_queries w (S (geo_queries w)))
    /\ (country = NOT_DEFINED
        \/ ip <> [] /\ ip <> NOT_DEFINED
           /\ exists body,
               ipapi env (geo_queries w) ip = Some (200%Z, Some body)
               /\ dict_get (py "country_name") body = Some country)
    /\ (city = NOT_DEFINED
        \/ ip <> [] /\ ip <> NOT_DEFINED
           /\ exists body,
               ipapi env (geo_queries w) ip = Some (200%Z, Some body)
               /\ dict_get (py "city") body = Some city)
    /\ (forall body,
           ipapi env (geo_queries w) ip = Some (200%Z, Some body) ->
           (dict_get (py "country_name") body = None
            \/ dict_get (py "country_name") body = Some [] -> country = NOT_DEFINED)
           /\ (dict_get (py "city") body = None
               \/ dict_get (py "city") body = Some [] -> city = NOT_DEFINED))
    /\ (forall status body,
           ipapi env (geo_queries w) ip = None
           \/ ipapi env (geo_queries w) ip = Some (status, body)
              /\ (status <> 200%Z \/ body = None) ->
           country = NOT_DEFINED /\ city = NOT_DEFINED).
Proof.
  assert (Hor : forall x, or_not_defined x = NOT_DEFINED \/ x = Some (or_not_defined x)).
  { intros [[|c s]|]; cbn; auto. }
  assert (Hempty : forall x, x = None \/ x = Some [] -> or_not_defined x = NOT_DEFINED).
  { by intros x [->| ->]. }
  unfold get_location_for_ip, quiet. destruct ip as [|c ip].
  { exists NOT_DEFINED, NOT_DEFINED, w. repeat split; auto; congruence. }
  destruct (text_eqb (c :: ip) NOT_DEFINED) eqn:Heq.
  { exists NOT_DEFINED, NOT_DEFINED, w. repeat split; auto.
    apply text_eqb_eq in Heq. congruence. }
  assert (Hne : c :: ip <> NOT_DEFINED).
  { intros E. rewrite E in Heq. unfold text_eqb in Heq.
    by rewrite bool_decide_eq_true_2 in Heq. }
  destruct (ipapi env (geo_queries w) (c :: ip)) as [[status [j|]]|] eqn:Hq.
  - destruct (Z.eqb_spec status 200) as [->|Hs].
    + eexists _, _, _. split; [reflexivity|]. split; [by repeat split|].
      split; [intros [?|?]; congruence|]. split; [reflexivity|].
      split; [|split; [|split]].
      * destruct (Hor (dict_get (py "country_name") j)) as [H|H]; [by left|].
        right. split; [discriminate|]. split; [exact Hne|]. by exists j.
      * destruct (Hor (dict_get (py "city") j)) as [H|H]; [by left|].
        right. split; [discriminate|]. split; [exact Hne|]. by exists j.
      * intros body E. inversion E; subst body. split; apply Hempty.
      * intros status body [E|[E [Hs|Hb]]]; [discriminate| |];
          inversion E; congruence.
    + exists NOT_DEFINED, NOT_DEFINED. eexists. split; [reflexivity|].
      split; [by repeat split|].
      split; [intros [?|?]; congruence|]. split; [reflexivity|].
      split; [by left|]. split; [by left|]. split; [|done].
      intros body E. inversion E; congruence.
  - exists NOT_DEFINED, NOT_DEFINED. eexists. split; [reflexivity|].
    split; [by repeat split|].
    split; [intros [?|?]; congruence|]. split; [reflexivity|].
    split; [by left|]. split; [by left|]. split; [|done].
    intros body E. inversion E.
  - exists NOT_DEFINED, NOT_DEFINED. eexists. split; [reflexivity|].
    split; [by repeat split|].
    split; [intros [?|?]; congruence|]. split; [reflexivity|].
    split; [by left|]. split; [by left|]. split; [|done].
    intros body E. inversion E.
Qed.

(** A lookup that answers a country and an empty city. *)
Lemma location_is_sentinel_or_answered_witness :
  exists country city w',
    get_location_for_ip only_httpbin (py "1.2.3.4") (start empty_fs)
    = (Returned (country, city), w')
    /\ (country = NOT_DEFINED
        \/ exists body,
             ipapi only_httpbin 0 (py "1.2.3.4") = Some (200%Z, Some body)
             /\ dict_get (py "country_name") body = Some country)
    /\ city = NOT_DEFINED.
Proof.
  destruct (location_is_sentinel_or_answered only_httpbin (py "1.2.3.4") (start empty_fs))
    as (country & city & w' & Hrun & _ & _ & _ & Hcountry & _ & Hempty & _).
  exists country, city, w'. split; [exact Hrun|]. split.
  - destruct Hcountry as [?|(_ & _ & H)]; [by left | by right].
  - eapply (Hempty _ eq_refl). right. reflexivity.
Defined.

(** ** [network.py]: the reputation verdicts *)

(** The ways [check_url_reputation] ends, one goal each. *)
Ltac verdict_cases H :=
  unfold check_url_reputation in H;
  repeat match type of H with
         | context [match ?x with _ => _ end] => destruct x eqn:?
         end;
  try discriminate H;
  apply (inj Some) in H; subst.

(** A verdict names the URL that was asked about; its level is one of
    the five tiers; it is safe exactly when the level is clean; the level
    is unknown exactly when the key or the URL is missing; and an unknown
    or error verdict counts no threat, has no date and is not safe. *)
Theorem verdict_well_formed (vt : VirusTotal) (target api_key : text)
        (v : URLReputationResult) :
  check_url_reputation vt target api_key = Some v ->
  url v = target
  /\ In (threat_level v) TIERS
  /\ (is_safe v = true <-> threat_level v = py "clean")
  /\ (threat_level v = py "unknown" <-> api_key = [] \/ target = [])
  /\ (threat_level v = py "unknown" \/ threat_level v = py "error" ->
      threat_count v = 0%Z /\ analysis_date v = [] /\ is_safe v = false).
Proof.
  intros H. verdict_cases H; cbn [url threat_level is_safe threat_count analysis_date
                                  error_verdict];
    (split; [reflexivity|]);
    (split; [vm_compute; tauto|]);
    (split; [split; [try discriminate; reflexivity | try discriminate; reflexivity]|]);
    (split; [split; [try discriminate; try (intros _; by left); try (intros _; by right)
                    | try (intros [?|?]; discriminate); reflexivity]|]);
    try (intros _; by repeat split);
    try (intros [?|?]; discriminate).
Qed.

(** The well-formed verdict of a submission that timed out. *)
Lemma verdict_well_formed_witness :
  let v := error_verdict (py "http://example.com/") (py "VirusTotal API timeout") in
  url v = py "http://example.com/"
  /\ In (threat_level v) TIERS
  /\ (is_safe v = true <-> threat_level v = py "clean")
  /\ (threat_level v = py "unknown" <-> py "0123abcd" = [] \/ py "http://example.com/" = [])
  /\ (threat_level v = py "unknown" \/ threat_level v = py "error" ->
      threat_count v = 0%Z /\ analysis_date v = [] /\ is_safe v = false).
Proof.
  apply (verdict_well_formed vt_timeout (py "http://example.com/") (py "0123abcd")).
  vm_compute. reflexivity.
Defined.

(** A URL is declared safe exactly when both HTTP steps were answered
    with status 200, the stats could be read, and neither the malicious
    nor the suspicious count (0 when absent) is positive. *)
Theorem declared_safe_iff (vt : VirusTotal) (target api_key : text) :
  (exists v, check_url_reputation vt target api_key = Some v /\ is_safe v = true)
  <->
  target <> [] /\ api_key <> []
  /\ exists analysis_id st,
      scan vt = Response 200 (Field analysis_id)
      /\ analysis vt analysis_id = Response 200 (Field st)
      /\ (default 0 (malicious st) <= 0)%Z
      /\ (default 0 (suspicious st) <= 0)%Z.
Proof.
  split.
  - intros (v & H & Hsafe).
    unfold check_url_reputation in H.
    destruct api_key as [|k ks]; [inversion H; subst; discriminate|].
    destruct target as [|u us]; [inversion H; subst; discriminate|].
    destruct (scan vt) as [| e | status body]; try (inversion H; subst; discriminate).
    destruct (Z.eqb_spec status 200) as [->|?]; [|inversion H; subst; discriminate].
    cbn [negb] in H.
    destruct body as [e | analysis_id]; [inversion H; subst; discriminate|].
    destruct (analysis vt analysis_id) as [| e | status' body'] eqn:Ha;
      try (inversion H; subst; discriminate).
    destruct (Z.eqb_spec status' 200) as [->|?]; [|discriminate].
    destruct body' as [e | st]; [inversion H; subst; discriminate|].
    split; [discriminate|]. split; [discriminate|].
    exists analysis_id, st. split; [reflexivity|]. split; [exact Ha|].
    inversion H; subst; clear H. cbn [is_safe] in Hsafe.
    destruct (Z.gtb_spec (default 0%Z (malicious st)) 0); [discriminate|].
    destruct (Z.gtb_spec (default 0%Z (suspicious st)) 0); [discriminate|].
    by split.
  - intros (Ht & Hk & analysis_id & st & Hs & Ha & Hm & Hsu).
    unfold check_url_reputation.
    destruct api_key as [|k ks]; [done|]. destruct target as [|u us]; [done|].
    rewrite Hs. cbn [negb Z.eqb Pos.eqb]. rewrite Ha. cbn [Z.eqb Pos.eqb].
    eexists. split; [reflexivity|]. cbn [is_safe].
    destruct (Z.gtb_spec (default 0%Z (malicious st)) 0); [lia|].
    destruct (Z.gtb_spec (default 0%Z (suspicious st)) 0); [lia|].
    reflexivity.
Qed.

(** A verdict that counts a threat is never safe. *)
Theorem counted_threat_never_safe (vt : VirusTotal) (target api_key : text)
        (v : URLReputationResult) :
  check_url_reputation vt target api_key = Some v ->
  (0 < threat_count v)%Z ->
  is_safe v = false
  /\ (threat_level v = py "malicious" \/ threat_level v = py "suspicious").
Proof.
  intros H Hc. verdict_cases H; cbn [threat_count error_verdict is_safe threat_level] in *;
    try lia.
  - split; [reflexivity | by left].
  - split; [reflexivity | by right].
Qed.

(** One suspicious report and no malicious one. *)
Lemma counted_threat_never_safe_witness :
  exists v,
    check_url_reputation (vt_counts 0 1) (py "http://example.com/") (py "0123abcd") = Some v
    /\ is_safe v = false
    /\ (threat_level v = py "malicious" \/ threat_level v = py "suspicious").
Proof.
  eexists. split; [reflexivity|].
  apply (counted_threat_never_safe (vt_counts 0 1) (py "http://example.com/")
           (py "0123abcd")).
  - reflexivity.
  - vm_compute. reflexivity.
Defined.

(** A timeout can be told from every other ending by the details of the
    verdict. *)
Theorem timeout_told_apart (vt : VirusTotal) (target api_key : text)
        (v : URLReputationResult) :
  check_url_reputation vt target api_key = Some v ->
  (details v = py "VirusTotal API timeout"
   <->
   target <> [] /\ api_key <> []
   /\ (scan vt = TimedOut
       \/ exists analysis_id,
           scan vt = Response 200 (Field analysis_id)
           /\ analysis vt analysis_id = TimedOut)).
Proof.
  intros H. unfold check_url_reputation in H.
  destruct api_key as [|k ks].
  { inversion H; subst. split; [discriminate | by intros (_ & ? & _)]. }
  destruct target as [|u us].
  { inversion H; subst. split; [discriminate | by intros (? & _)]. }
  destruct (scan vt) as [| e | status body].
  - inversion H; subst. split; [|reflexivity]. intros _. repeat split; try discriminate.
    by left.
  - inversion H; subst. split; [discriminate|].
    intros (_ & _ & [?|(? & ? & _)]); discriminate.
  - destruct (Z.eqb_spec status 200) as [->|Hne]; cbn [negb] in H.
    2:{ inversion H; subst. split; [discriminate|].
        intros (_ & _ & [?|(? & Hs & _)]); [discriminate|]. inversion Hs. contradiction. }
    destruct body as [e | analysis_id].
    { inversion H; subst. split; [discriminate|].
      intros (_ & _ & [?|(? & ? & _)]); discriminate. }
    destruct (analysis vt analysis_id) as [| e | status' body'] eqn:Ha.
    + inversion H; subst. split; [|reflexivity]. intros _. repeat split; try discriminate.
      right. by exists analysis_id.
    + inversion H; subst. split; [discriminate|].
      intros (_ & _ & [?|(? & Hs & Ht)]); [discriminate|]. inversion Hs; subst. congruence.
    + destruct (status' =? 200)%Z; [|discriminate].
      destruct body' as [e | st]; inversion H; subst; (split; [discriminate|]);
        intros (_ & _ & [?|(? & Hs & Ht)]); try discriminate; inversion Hs; subst; congruence.
Qed.

(** The verdict of a submission that timed out. *)
Lemma timeout_told_apart_witness :
  details (error_verdict (py "http://example.com/") (py "VirusTotal API timeout"))
  = py "VirusTotal API timeout"
  <->
  py "http://example.com/" <> [] /\ py "0123abcd" <> []
  /\ (scan vt_timeout = TimedOut
      \/ exists analysis_id,
          scan vt_timeout = Response 200 (Field analysis_id)
          /\ analysis vt_timeout analysis_id = TimedOut).
Proof.
  apply (timeout_told_apart vt_timeout (py "http://example.com/") (py "0123abcd")).
  vm_compute. reflexivity.
Defined.

(** ** [database/logging.py]: the lines of the log *)

Lemma log_line_lines (result : ChangeResult) :
  lines (log_line result) = [json_dumps (log_entry result); []].
Proof.
  destruct (log_entry_body result) as (body & Hbody & Hprint).
  unfold lines, log_line. rewrite lines_from_line; [reflexivity|].
  rewrite Hbody. apply List.Forall_cons; [lia|]. apply Forall_app. split; [exact Hprint|].
  apply List.Forall_cons; [lia | apply List.Forall_nil].
Qed.

Lemma log_line_strip (result : ChangeResult) :
  strip (json_dumps (log_entry result)) = json_dumps (log_entry result).
Proof.
  destruct (log_entry_body result) as (body & -> & _). apply strip_braced.
Qed.

Lemma records_log_line (result : ChangeResult) :
  records (log_line result) = [log_entry result].
Proof. apply (records_after_append [] result eq_refl). Qed.

(** What [append_log] writes for an outcome is one line, whatever the
    fields hold (a line break in a field is escaped); the line reads back
    as the record of the outcome; and two outcomes that give the same
    line are the same outcome. *)
Theorem log_line_is_one_record (result : ChangeResult) :
  lines (log_line result) = [json_dumps (log_entry result); []]
  /\ json_loads (strip (json_dumps (log_entry result))) = Some (log_entry result)
  /\ records (log_line result) = [log_entry result]
  /\ forall result', log_line result = log_line result' -> result = result'.
Proof.
  split; [apply log_line_lines|]. split.
  { rewrite log_line_strip. apply json_loads_log_entry. }
  split.
  { apply records_log_line. }
  intros result' H. unfold log_line in H. apply app_inv_tail in H.
  assert (He : Some (log_entry result) = Some (log_entry result')).
  { rewrite <- !json_loads_log_entry. by rewrite H. }
  destruct result, result'. unfold log_entry in He. cbn in He.
  inversion He; subst. reflexivity.
Qed.

(** ** [database/logging.py]: appending *)

Lemma newline_terminated_log_line (s : text) (result : ChangeResult) :
  newline_terminated (s ++ log_line result) = true.
Proof. unfold newline_terminated, log_line. by rewrite app_assoc, last_snoc. Qed.

(** One successful append, in terms of the content of the log. *)
Lemma append_log_content (config : AppConfig) (result : ChangeResult) (files : FS) :
  log_enabled config = true ->
  appendable files (log_file config) = true ->
  encodable (log_line result) = true ->
  appendable (append_log config result files) (log_file config) = true
  /\ log_content (append_log config result files) (log_file config)
     = log_content files (log_file config) ++ log_line result
  /\ read_text (append_log config result files) (log_file config)
     = Some (log_content files (log_file config) ++ log_line result)
  /\ newline_terminated (log_content files (log_file config)) = true.
Proof.
  intros Hen Hap Henc. unfold append_log, appendable, log_content, read_text in *.
  rewrite Hen. cbn [negb]. unfold open_append.
  destruct (nodes files !! log_file config) as [[|f]|] eqn:Hn; [discriminate| |].
  - apply andb_prop in Hap as [Hap Hnl]. apply andb_prop in Hap as [Hr Hw].
    rewrite Hw. unfold write_text. rewrite Hn, Henc. cbn [nodes with_nodes].
    rewrite lookup_insert_eq. cbn [readable writable content]. rewrite Hr, Hw.
    by rewrite newline_terminated_log_line.
  - rewrite Hap. unfold write_text. cbn [nodes with_nodes]. rewrite lookup_insert_eq.
    rewrite Henc. cbn [nodes with_nodes]. rewrite lookup_insert_eq.
    cbn [readable writable content fresh_file andb].
    by rewrite (newline_terminated_log_line [] result).
Qed.

Lemma records_app (a b : text) :
  newline_terminated a = true -> records (a ++ b) = records a ++ records b.
Proof.
  intros Ha. unfold records.
  destruct (lines_after_terminated a Ha) as (L & H1 & H2).
  rewrite H2, H1, !collect_items_app. cbn [collect_items].
  change (strip []) with (@nil N). cbv iota.
  apply collect_items_acc.
Qed.

Lemma append_all_content (config : AppConfig) (results : list ChangeResult) :
  forall files,
    log_enabled config = true ->
    appendable files (log_file config) = true ->
    Forall (fun r => encodable (log_line r) = true) results ->
    appendable (append_all config results files) (log_file config) = true
    /\ log_content (append_all config results files) (log_file config)
       = log_content files (log_file config) ++ concat (map log_line results)
    /\ records (log_content (append_all config results files) (log_file config))
       = records (log_content files (log_file config)) ++ map log_entry results.
Proof.
  induction results as [|r results IH]; intros files Hen Hap Henc.
  - cbn. rewrite !app_nil_r. by repeat split.
  - inversion Henc as [|? ? Hr Hrest]; subst.
    destruct (append_log_content config r files Hen Hap Hr) as (Hap1 & Hc1 & _ & Hnl).
    destruct (IH (append_log config r files) Hen Hap1 Hrest) as (Hap2 & Hc2 & Hrec2).
    change (append_all config (r :: results) files)
      with (append_all config results (append_log config r files)).
    split; [exact Hap2|]. split.
    + rewrite Hc2, Hc1. cbn [map concat]. by rewrite <- app_assoc.
    + rewrite Hrec2, Hc1, (records_app _ _ Hnl).
      rewrite records_log_line.
      cbn [map]. by rewrite <- app_assoc.
Qed.

Lemma read_last_logs_content (log_file : text) (limit : Z) (files : FS) :
  appendable files log_file = true ->
  read_last_logs log_file limit files
  = rev (slice_from (- limit) (records (log_content files log_file))).
Proof.
  unfold appendable, log_content. intros Hap.
  destruct (nodes files !! log_file) as [[|f]|] eqn:Hn; [discriminate| |].
  - apply andb_prop in Hap as [Hap _]. apply andb_prop in Hap as [Hr _].
    apply read_last_logs_records. unfold read_text. by rewrite Hn, Hr.
  - unfold read_last_logs, path_exists. rewrite Hn. cbn [negb].
    change (records []) with (@nil json). unfold slice_from. by rewrite drop_nil.
Qed.

(** After outcomes were appended one after another to a log that can be
    appended to, reading with a positive limit yields the newest records
    first: the appended ones from the last to the first, then the older
    ones, cut at the limit. *)
Theorem append_all_then_read (config : AppConfig) (results : list ChangeResult)
        (files : FS) (limit : Z) :
  log_enabled config = true ->
  appendable files (log_file config) = true ->
  Forall (fun r => encodable (log_line r) = true) results ->
  (0 < limit)%Z ->
  read_last_logs (log_file config) limit (append_all config results files)
  = take (Z.to_nat limit)
      (rev (map log_entry results) ++ rev (records (log_content files (log_file config)))).
Proof.
  intros Hen Hap Henc Hlim.
  destruct (append_all_content config results files Hen Hap Henc) as (Hap' & _ & Hrec).
  rewrite (read_last_logs_content _ _ _ Hap'), Hrec, slice_from_last by exact Hlim.
  rewrite <- firstn_rev, rev_app_distr. reflexivity.
Qed.

(** Two outcomes appended to a log of two records, read with limit 3. *)
Lemma append_all_then_read_witness :
  read_last_logs (log_file default_config) 3
    (append_all default_config [two_line_note; outcome "2025-01-04 10:00:00" true]
       (one_file (log_file default_config) two_records))
  = [ log_entry (outcome "2025-01-04 10:00:00" true);
      log_entry two_line_note;
      log_entry (outcome "2025-01-02 09:30:00" true) ].
Proof.
  rewrite (append_all_then_read default_config
             [two_line_note; outcome "2025-01-04 10:00:00" true]
             (one_file (log_file default_config) two_records) 3);
    [vm_compute; reflexivity | reflexivity | vm_compute; reflexivity | | lia].
  repeat (apply List.Forall_cons; [vm_compute; reflexivity|]). apply List.Forall_nil.
Defined.

(** A note with a line break still gives one line. *)
Lemma log_line_is_one_record_witness :
  lines (log_line two_line_note) = [json_dumps (log_entry two_line_note); []]
  /\ (log_line two_line_note = log_line two_line_note -> two_line_note = two_line_note).
Proof.
  split.
  - apply (proj1 (log_line_is_one_record two_line_note)).
  - apply (proj2 (proj2 (proj2 (log_line_is_one_record two_line_note)))).
Defined.

(** ** [database/logging.py]: reading *)

Lemma lines_from_segment (s : text) :
  forall (cur tail : text),
    Forall (fun c => is_nl c = false) s ->
    lines_from cur (s ++ 10%N :: tail) = (rev cur ++ s) :: lines_from [] tail.
Proof.
  induction s as [|c s IH]; intros cur tail Hs.
  - cbn. by rewrite app_nil_r.
  - inversion Hs as [|? ? Hc Hs']; subst. cbn [app lines_from].
    unfold is_nl in Hc. rewrite Hc, IH by exact Hs'. cbn [rev]. by rewrite <- app_assoc.
Qed.

(** A line that is blank or does not parse is skipped: the records read
    are those of the file without that line, whatever the limit. *)
Theorem malformed_line_skipped (log_file : text) (limit : Z) (a bad b : text) :
  newline_terminated a = true ->
  Forall (fun c => is_nl c = false) bad ->
  strip bad = [] \/ json_loads (strip bad) = None ->
  read_last_logs log_file limit (one_file log_file (a ++ bad ++ [10%N] ++ b))
  = read_last_logs log_file limit (one_file log_file (a ++ b)).
Proof.
  intros Ha Hbad Hskip.
  assert (Hread : forall s, read_text (one_file log_file s) log_file = Some s).
  { intros s. unfold read_text, one_file. cbn [nodes]. by rewrite lookup_singleton_eq. }
  rewrite !(read_last_logs_records _ _ _ _ (Hread _)). do 2 f_equal.
  rewrite !(records_app a) by exact Ha. f_equal.
  unfold records, lines. cbn [app]. rewrite lines_from_segment by exact Hbad.
  cbn [rev app collect_items].
  destruct Hskip as [->|Hnone]; [reflexivity|].
  destruct (strip bad); [reflexivity|]. by rewrite Hnone.
Qed.

(** A half-written line between two records. *)
Lemma malformed_line_skipped_witness :
  read_last_logs (log_file default_config) 50
    (one_file (log_file default_config)
       (log_line (outcome "2025-01-01 12:00:00" false)
        ++ py "{'timestamp': " ++ [10%N]
        ++ log_line (outcome "2025-01-02 09:30:00" true)))
  = read_last_logs (log_file default_config) 50
      (one_file (log_file default_config) two_records).
Proof.
  apply (malformed_line_skipped (log_file default_config) 50
           (log_line (outcome "2025-01-01 12:00:00" false))
           (py "{'timestamp': ")
           (log_line (outcome "2025-01-02 09:30:00" true))).
  - vm_compute. reflexivity.
  - repeat (apply List.Forall_cons; [vm_compute; reflexivity|]). apply List.Forall_nil.
  - right. vm_compute. reflexivity.
Defined.

(** With a negative limit the slice [items[-limit:]] starts after the
    first [-limit] records: the oldest [-limit] records are left out and
    all the others are returned, newest first. *)
Theorem read_last_logs_negative_limit (log_file : text) (limit : Z) (files : FS) (s : text) :
  read_text files log_file = Some s ->
  (limit < 0)%Z ->
  read_last_logs log_file limit files = rev (drop (Z.to_nat (- limit)) (records s)).
Proof.
  intros Hs Hlim. rewrite (read_last_logs_records _ _ _ _ Hs). f_equal.
  unfold slice_from. destruct (Z.ltb_spec (- limit) 0); [lia|].
  destruct (Z.min_spec (- limit) (Z.of_nat (length (records s)))) as [[_ ->]|[Hge ->]];
    [reflexivity|].
  rewrite Nat2Z.id, !drop_ge; [reflexivity| lia | lia].
Qed.

(** Limit -1 on a log of two records leaves out the older one. *)
Lemma read_last_logs_negative_limit_witness :
  read_last_logs (log_file default_config) (-1)
    (one_file (log_file default_config) two_records)
  = rev (drop 1 (records two_records)).
Proof.
  apply (read_last_logs_negative_limit (log_file default_config) (-1) _ two_records).
  - vm_compute. reflexivity.
  - lia.
Defined.

(** ** [database/logging.py]: what appending and clearing leave alone *)

(** [append_log] changes nothing but the log target, never shortens it
    and never changes what can be done with it: afterwards the target
    holds what it held, followed by the line of the outcome or by nothing.
    With logging switched off, or when the target cannot be opened for
    appending, nothing changes at all. *)
Theorem append_log_only_extends (config : AppConfig) (result : ChangeResult) (files : FS) :
  creatable (append_log config result files) = creatable files
  /\ (forall path, path <> log_file config ->
        nodes (append_log config result files) !! path = nodes files !! path)
  /\ (forall f, nodes files !! log_file config = Some (Regular f) ->
        exists f',
          nodes (append_log config result files) !! log_file config = Some (Regular f')
          /\ (content f' = content f \/ content f' = content f ++ log_line result)
          /\ readable f' = readable f /\ writable f' = writable f
          /\ removable f' = removable f)
  /\ (log_enabled config = false \/ open_append files (log_file config) = None ->
      append_log config result files = files).
Proof.
  split; [|split; [|split]].
  - unfold append_log, open_append, write_text.
    destruct (log_enabled config); [|reflexivity]. cbn [negb].
    destruct (nodes files !! log_file config) as [[|f]|] eqn:Hn; [reflexivity| |].
    + destruct (writable f); [|reflexivity]. rewrite Hn.
      by destruct (encodable (log_line result)).
    + destruct (creatable files (log_file config)); [|reflexivity].
      cbn [nodes with_nodes]. rewrite lookup_insert_eq.
      by destruct (encodable (log_line result)).
  - intros path Hp. unfold append_log, open_append, write_text.
    destruct (log_enabled config); [|reflexivity]. cbn [negb].
    destruct (nodes files !! log_file config) as [[|f]|] eqn:Hn; [reflexivity| |].
    + destruct (writable f); [|reflexivity]. rewrite Hn.
      destruct (encodable (log_line result)); [|reflexivity].
      cbn [nodes with_nodes]. by rewrite lookup_insert_ne.
    + destruct (creatable files (log_file config)); [|reflexivity].
      cbn [nodes with_nodes]. rewrite lookup_insert_eq.
      destruct (encodable (log_line result)); cbn [nodes with_nodes];
        by rewrite !lookup_insert_ne.
  - intros f Hf. unfold append_log, open_append, write_text. rewrite Hf.
    destruct (log_enabled config); cbn [negb].
    2:{ exists f. split; [exact Hf|]. split; [by left | by repeat split]. }
    destruct (writable f) eqn:Hw.
    2:{ exists f. split; [exact Hf|]. split; [by left | by repeat split]. }
    rewrite Hf. destruct (encodable (log_line result)).
    2:{ exists f. split; [exact Hf|]. split; [by left | by repeat split]. }
    eexists. cbn [nodes with_nodes]. rewrite lookup_insert_eq.
    split; [reflexivity|]. cbn [content readable writable removable].
    split; [by right | by repeat split].
  - unfold append_log. intros [->| ->]; [reflexivity|]. by destruct (negb _).
Qed.

(** An append to a log of two records keeps them. *)
Lemma append_log_only_extends_witness :
  exists f',
    nodes (append_log default_config two_line_note
             (one_file (log_file default_config) two_records))
      !! log_file default_config = Some (Regular f')
    /\ (content f' = two_records \/ content f' = two_records ++ log_line two_line_note).
Proof.
  destruct (proj1 (proj2 (proj2 (append_log_only_extends default_config two_line_note
                                   (one_file (log_file default_config) two_records))))
              {| content := two_records; readable := true; writable := true;
                 removable := true |})
    as (f' & H1 & H2 & _).
  - vm_compute. reflexivity.
  - exists f'. by split.
Defined.

(** When the line of an outcome cannot be encoded (a field holds a lone
    surrogate) and the log target is absent, [append_log] still creates
    the target, and leaves it empty: nothing is read back. *)
Theorem unencodable_outcome_leaves_empty_log (config : AppConfig) (result : ChangeResult)
        (files : FS) (limit : Z) :
  log_enabled config = true ->
  nodes files !! log_file config = None ->
  creatable files (log_file config) = true ->
  encodable (log_line result) = false ->
  nodes (append_log config result files) !! log_file config = Some (Regular fresh_file)
  /\ read_last_logs (log_file config) limit (append_log config result files) = [].
Proof.
  intros Hen Hn Hc Henc. unfold append_log, open_append, write_text.
  rewrite Hen, Hn, Hc. cbn [negb nodes with_nodes]. rewrite lookup_insert_eq, Henc.
  cbn [nodes with_nodes]. rewrite lookup_insert_eq. split; [reflexivity|].
  erewrite read_last_logs_records.
  2:{ unfold read_text. cbn [nodes with_nodes]. by rewrite lookup_insert_eq. }
  cbn [content fresh_file]. change (records []) with (@nil json).
  unfold slice_from. by rewrite drop_nil.
Qed.

(** An outcome whose note is a lone surrogate, on an absent log. *)
Lemma unencodable_outcome_leaves_empty_log_witness :
  nodes (append_log default_config surrogate_note empty_fs) !! log_file default_config
  = Some (Regular fresh_file)
  /\ read_last_logs (log_file default_config) 50
       (append_log default_config surrogate_note empty_fs) = [].
Proof.
  apply unencodable_outcome_leaves_empty_log; vm_compute; reflexivity.
Defined.

(** [clear_logs] changes nothing but the log target; it returns false
    exactly when the target is a directory or a file that cannot be
    removed, and then nothing changes at all. *)
Theorem clear_logs_only_removes_target (log_file : text) (files : FS) :
  creatable (snd (clear_logs log_file files)) = creatable files
  /\ (forall path, path <> log_file ->
        nodes (snd (clear_logs log_file files)) !! path = nodes files !! path)
  /\ (fst (clear_logs log_file files) = false <->
      nodes files !! log_file = Some Directory
      \/ exists f, nodes files !! log_file = Some (Regular f) /\ removable f = false)
  /\ (fst (clear_logs log_file files) = false -> snd (clear_logs log_file files) = files).
Proof.
  unfold clear_logs, path_exists, os_remove.
  destruct (nodes files !! log_file) as [[|f]|] eqn:Hn; cbn [fst snd].
  - split; [reflexivity|]. split; [reflexivity|]. split; [|reflexivity].
    split; [by left | reflexivity].
  - destruct (removable f) eqn:Hr; cbn [fst snd nodes with_nodes creatable].
    + split; [reflexivity|]. split; [intros path Hp; by rewrite lookup_delete_ne|].
      split; [|discriminate]. split; [discriminate|].
      intros [?|(f0 & Hf & Hr0)]; [discriminate|]. inversion Hf; subst. congruence.
    + split; [reflexivity|]. split; [reflexivity|]. split; [|reflexivity].
      split; [|reflexivity]. intros _. right. by exists f.
  - split; [reflexivity|]. split; [reflexivity|]. split; [|discriminate].
    split; [discriminate|]. intros [?|(f0 & ? & _)]; discriminate.
Qed.

(** A log that is a directory is not cleared. *)
Lemma clear_logs_only_removes_target_witness :
  let files := {| nodes := {[ log_file default_config := Directory ]};
                  creatable := fun _ => true |} in
  fst (clear_logs (log_file default_config) files) = false
  /\ snd (clear_logs (log_file default_config) files) = files.
Proof.
  intros files.
  pose proof (clear_logs_only_removes_target (log_file default_config) files)
    as (_ & _ & Hiff & Hsame).
  assert (Hf : fst (clear_logs (log_file default_config) files) = false).
  { apply Hiff. left. vm_compute. reflexivity. }
  split; [exact Hf | exact (Hsame Hf)].
Defined.

(** After [clear_logs] succeeded, an append that succeeds leaves exactly
    the appended record in the log. *)
Theorem clear_then_append_holds_one (config : AppConfig) (result : ChangeResult)
        (files : FS) (limit : Z) :
  log_enabled config = true ->
  fst (clear_logs (log_file config) files) = true ->
  append_written config result (snd (clear_logs (log_file config) files)) = true ->
  (0 < limit)%Z ->
  read_last_logs (log_file config) limit
    (append_log config result (snd (clear_logs (log_file config) files)))
  = [log_entry result].
Proof.
  intros Hen Hok Hw Hlim.
  pose proof (clear_logs_reports (log_file config) files) as Hgone.
  rewrite Hok in Hgone. symmetry in Hgone. apply negb_true_iff in Hgone.
  set (files1 := snd (clear_logs (log_file config) files)) in *.
  unfold path_exists in Hgone.
  destruct (nodes files1 !! log_file config) eqn:Hn; [discriminate|].
  unfold append_written, open_append in Hw. rewrite Hn in Hw.
  destruct (creatable files1 (log_file config)) eqn:Hc; [|discriminate].
  unfold write_text in Hw. cbn [nodes with_nodes] in Hw. rewrite lookup_insert_eq in Hw.
  destruct (encodable (log_line result)) eqn:Henc; [|discriminate].
  assert (Hap : appendable files1 (log_file config) = true).
  { unfold appendable. by rewrite Hn. }
  destruct (append_log_content config result files1 Hen Hap Henc) as (_ & _ & Hread & _).
  rewrite (read_last_logs_records _ _ _ _ Hread), slice_from_last by exact Hlim.
  unfold log_content. rewrite Hn. cbn [app]. rewrite records_log_line.
  cbn [length]. destruct (Z.to_nat limit) as [|n] eqn:Hz; [lia|].
  replace (1 - S n) with 0 by lia. reflexivity.
Qed.

(** Clearing a log of two records and appending one outcome. *)
Lemma clear_then_append_holds_one_witness :
  read_last_logs (log_file default_config) 50
    (append_log default_config two_line_note
       (snd (clear_logs (log_file default_config)
               (one_file (log_file default_config) two_records))))
  = [log_entry two_line_note].
Proof.
  apply clear_then_append_holds_one; [reflexivity | vm_compute; reflexivity.. | lia].
Defined.

(** ** [worker.py]: the whole run *)

Lemma send_telegram_posts (config : AppConfig) (message : text) (w : World) :
  send_telegram_notification config message w
  = (Returned tt,
     if posts config
     then with_telegrams w ((telegram_chat_id config, message) :: telegrams w)
     else w).
Proof.
  unfold send_telegram_notification, posts.
  destruct (telegram_enabled config); cbn [negb];
    destruct (telegram_bot_token config), (telegram_chat_id config); reflexivity.
Qed.

Section Iterations.
Variable env : Env.
Variable self : ChangeWorker.

Local Abbreviation port := (tor_control_port (config self)).
Local Abbreviation proxy := (tor_socks_proxy (config self)).
Local Abbreviation wait := (wait_seconds self).
Local Abbreviation clock k := (Z.of_N (monotonic env k)).

(** The world after [k] full iterations of the loop. *)
Lemma iterations_world (k : nat) (w : World) :
  fs (Nat.iter k (after_iteration self) w) = fs w
  /\ signals (Nat.iter k (after_iteration self) w) = replicate k (port, None) ++ signals w
  /\ tor_queries (Nat.iter k (after_iteration self) w) = k + tor_queries w
  /\ naps (Nat.iter k (after_iteration self) w) = replicate k wait ++ naps w
  /\ telegrams (Nat.iter k (after_iteration self) w) = telegrams w
  /\ clock_reads (Nat.iter k (after_iteration self) w) = clock_reads w.
Proof.
  induction k as [|k (H1 & H2 & H3 & H4 & H5 & H6)]; [by repeat split|].
  rewrite Nat.iter_succ.
  cbn [after_iteration fs signals tor_queries naps telegrams clock_reads
         with_tor_queries with_naps with_signals replicate app].
  rewrite H2, H3, H4. by repeat split.
Qed.

(** The loop that breaks in iteration [i], with the world it leaves. *)
Lemma retry_loop_breaks_in (r : nat) :
  forall (a : nat) (old_ip new_ip note : text) (w : World) (i : nat),
    i < r ->
    (forall j, j <= i -> controller env (length (signals w) + j) port = None) ->
    (forall j, j <= i -> sleep_error (clock (length (naps w) + j)) wait = None) ->
    (forall j, j < i -> moved old_ip (resolved env (tor_queries w + j) proxy) = false) ->
    moved old_ip (resolved env (tor_queries w + i) proxy) = true ->
    retry_loop env self r a old_ip new_ip note w =
    (Returned (resolved env (tor_queries w + i) proxy,
               match i with O => note | S _ => STAYED_NOTE end,
               Break (a + i)),
     Nat.iter (S i) (after_iteration self) w).
Proof.
  induction r as [|r IH]; intros a old_ip new_ip note w i Hi Hok Hnap Hno Hyes; [lia|].
  rewrite retry_loop_step.
  pose proof (Hok 0 ltac:(lia)) as Hc. rewrite Nat.add_0_r in Hc. rewrite Hc.
  pose proof (Hnap 0 ltac:(lia)) as Hw. rewrite Nat.add_0_r in Hw. rewrite Hw.
  destruct i as [|i].
  - rewrite Nat.add_0_r in Hyes. by rewrite Hyes, !Nat.add_0_r.
  - pose proof (Hno 0 ltac:(lia)) as Hm. rewrite Nat.add_0_r in Hm. rewrite Hm.
    rewrite (IH (S a) old_ip _ STAYED_NOTE (after_iteration self w) i).
    + simpl_world. rewrite <- !Nat.add_succ_comm, (Nat.iter_succ_r (S i)).
      by destruct i.
    + lia.
    + intros j Hj. simpl_world. rewrite Nat.add_succ_comm. apply Hok. lia.
    + intros j Hj. simpl_world. rewrite Nat.add_succ_comm. apply Hnap. lia.
    + intros j Hj. simpl_world. rewrite Nat.add_succ_comm. apply Hno. lia.
    + simpl_world. by rewrite Nat.add_succ_comm.
Qed.

(** The loop that uses up its range, with the world it leaves. *)
Lemma retry_loop_exhausted (r : nat) :
  forall (a : nat) (old_ip new_ip note : text) (w : World),
    (forall j, j < r -> controller env (length (signals w) + j) port = None) ->
    (forall j, j < r -> sleep_error (clock (length (naps w) + j)) wait = None) ->
    (forall j, j < r -> moved old_ip (resolved env (tor_queries w + j) proxy) = false) ->
    retry_loop env self r a old_ip new_ip note w =
    (Returned (match r with
               | O => new_ip
               | S r' => resolved env (tor_queries w + r') proxy
               end,
               match r with O => note | S _ => STAYED_NOTE end,
               RangeEnd),
     Nat.iter r (after_iteration self) w).
Proof.
  induction r as [|r IH]; intros a old_ip new_ip note w Hok Hnap Hno; [reflexivity|].
  rewrite retry_loop_step.
  pose proof (Hok 0 ltac:(lia)) as Hc. rewrite Nat.add_0_r in Hc. rewrite Hc.
  pose proof (Hnap 0 ltac:(lia)) as Hw. rewrite Nat.add_0_r in Hw. rewrite Hw.
  pose proof (Hno 0 ltac:(lia)) as Hm. rewrite Nat.add_0_r in Hm. rewrite Hm.
  rewrite (IH (S a) old_ip _ STAYED_NOTE (after_iteration self w)).
  - rewrite (Nat.iter_succ_r r). simpl_world. destruct r as [|r].
    + by rewrite Nat.add_0_r.
    + by rewrite <- Nat.add_succ_comm.
  - intros j Hj. simpl_world. rewrite Nat.add_succ_comm. apply Hok. lia.
  - intros j Hj. simpl_world. rewrite Nat.add_succ_comm. apply Hnap. lia.
  - intros j Hj. simpl_world. rewrite Nat.add_succ_comm. apply Hno. lia.
Qed.

(** The loop leaves the files, the messages and the clock alone. *)
Lemma retry_loop_quiet (r : nat) :
  forall (a : nat) (old_ip new_ip note : text) (w : World),
    fs (snd (retry_loop env self r a old_ip new_ip note w)) = fs w
    /\ telegrams (snd (retry_loop env self r a old_ip new_ip note w)) = telegrams w
    /\ clock_reads (snd (retry_loop env self r a old_ip new_ip note w)) = clock_reads w.
Proof.
  induction r as [|r IH]; intros a old_ip new_ip note w; [by repeat split|].
  rewrite retry_loop_step.
  destruct (controller env (length (signals w)) port); [by repeat split|].
  destruct (sleep_error _ wait); [by repeat split|].
  destruct (moved old_ip _); [by repeat split|].
  destruct (IH (S a) old_ip (resolved env (tor_queries w) proxy) STAYED_NOTE
              (after_iteration self w)) as (H1 & H2 & H3).
  rewrite H1, H2, H3. by repeat split.
Qed.

(** Once set, the note stays. *)
Lemma retry_loop_keeps_note (r : nat) :
  forall (a : nat) (old_ip new_ip ip nt : text) (ex : loop_exit) (w w' : World),
    retry_loop env self r a old_ip new_ip STAYED_NOTE w = (Returned (ip, nt, ex), w') ->
    nt = STAYED_NOTE.
Proof.
  induction r as [|r IH]; intros a old_ip new_ip ip nt ex w w' H.
  - cbn in H. by inversion H.
  - rewrite retry_loop_step in H.
    destruct (controller env (length (signals w)) port); [discriminate|].
    destruct (sleep_error _ wait); [discriminate|].
    destruct (moved old_ip _); [by inversion H|]. by apply IH in H.
Qed.

(** [run], split at the loop, with all that the steps around it do. *)
Lemma run_outcomes (w : World) :
  exists w3,
    quiet (with_tor_queries w (S (tor_queries w))) w3
    /\ match retry_loop env self (attempts self) 0
               (resolved env (tor_queries w) proxy)
               (resolved env (tor_queries w) proxy) [] w3 with
       | (Raised msg, w4) => run env self w = (Failure msg, w4)
       | (Returned (ip, nt, ex), w4) =>
           exists res w5,
             run env self w = (Done res, w5)
             /\ old_tor_ip res = resolved env (tor_queries w) proxy
             /\ new_tor_ip res = ip
             /\ note res = nt
             /\ changed res =
                  negb (text_eqb ip NOT_DEFINED)
                  && negb (text_eqb (resolved env (tor_queries w) proxy) NOT_DEFINED)
                  && negb (text_eqb ip (resolved env (tor_queries w) proxy))
             /\ timestamp res = now env (clock_reads w4)
             /\ signals w5 = signals w4
             /\ tor_queries w5 = tor_queries w4
             /\ naps w5 = naps w4
             /\ clock_reads w5 = S (clock_reads w4)
             /\ fs w5 = append_log (config self) res (fs w4)
             /\ telegrams w5 =
                  if posts (config self)
                  then (telegram_chat_id (config self), announcement res) :: telegrams w4
                  else telegrams w4
       end.
Proof.
  unfold run, attempt_change.
  erewrite bind_returned by reflexivity.
  erewrite bind_returned by reflexivity.
  set (old_ip := resolved env (tor_queries (with_real_queries w _)) proxy).
  change (resolved env (tor_queries w) proxy) with old_ip.
  destruct (get_location_quiet env old_ip
              (with_tor_queries (with_real_queries w (S (real_queries w)))
                 (S (tor_queries (with_real_queries w (S (real_queries w)))))))
    as (old_loc & w3 & Hloc & Hq).
  erewrite bind_returned by exact Hloc.
  exists w3. split; [exact Hq|].
  destruct (retry_loop env self (attempts self) 0 old_ip old_ip [] w3)
    as [[[[ip nt] ex]|msg] w4] eqn:Hloop.
  - erewrite bind_returned by exact Hloop. cbn [fst snd].
    destruct (get_location_quiet env ip w4)
      as (new_loc & w5 & Hloc' & H1 & H2 & H3 & H4 & H5 & H6).
    erewrite bind_returned by exact Hloc'.
    erewrite bind_returned by reflexivity.
    erewrite bind_returned by reflexivity.
    erewrite bind_returned by apply send_telegram_posts.
    unfold ret. eexists _, _. split; [reflexivity|].
    cbn [old_tor_ip new_tor_ip note changed timestamp].
    rewrite H6.
    destruct (posts (config self));
      cbn [signals tor_queries naps clock_reads fs telegrams with_telegrams with_fs
             with_clock_reads];
      rewrite ?H1, ?H2, ?H3, ?H4, ?H5, ?H6; by repeat split.
  - erewrite bind_raised by exact Hloop. reflexivity.
Qed.

End Iterations.

Section Runs.
Variable env : Env.
Variable self : ChangeWorker.

Local Abbreviation port := (tor_control_port (config self)).
Local Abbreviation proxy := (tor_socks_proxy (config self)).
Local Abbreviation wait := (wait_seconds self).
Local Abbreviation target := (log_file (config self)).

(** Whether the note is set when the loop returns. *)
Lemma retry_loop_note (r a : nat) (old_ip new_ip ip nt : text) (ex : loop_exit)
      (w w' : World) :
  retry_loop env self r a old_ip new_ip [] w = (Returned (ip, nt, ex), w') ->
  (nt = [] /\ (r = 0 \/ moved old_ip (resolved env (tor_queries w) proxy) = true))
  \/ (nt = STAYED_NOTE /\ 0 < r
      /\ moved old_ip (resolved env (tor_queries w) proxy) = false).
Proof.
  destruct r as [|r]; intros H.
  - cbn in H. inversion H. left. split; [reflexivity | by left].
  - rewrite retry_loop_step in H.
    destruct (controller env (length (signals w)) port); [discriminate|].
    destruct (sleep_error _ wait); [discriminate|].
    destruct (moved old_ip _) eqn:Hm.
    + inversion H. left. split; [reflexivity | by right].
    + apply retry_loop_keeps_note in H. right. split; [exact H|]. split; [lia | reflexivity].
Qed.

(** When a run is done, the files are those from before with the outcome
    appended to the log; and when the log can be appended to, the outcome
    is the newest record, in front of the older ones. *)
Theorem completed_run_is_logged (w w' : World) (res : ChangeResult) (limit : Z) :
  run env self w = (Done res, w') ->
  fs w' = append_log (config self) res (fs w)
  /\ (log_enabled (config self) = true ->
      appendable (fs w) target = true ->
      encodable (log_line res) = true ->
      (0 < limit)%Z ->
      read_last_logs target limit (fs w')
      = take (Z.to_nat limit)
          (log_entry res :: rev (records (log_content (fs w) target)))).
Proof.
  intros H.
  destruct (run_outcomes env self w) as (w3 & (Hfs3 & _) & Hrun).
  pose proof (retry_loop_quiet env self (attempts self) 0
                (resolved env (tor_queries w) proxy)
                (resolved env (tor_queries w) proxy) [] w3) as (Hfs4 & _ & _).
  destruct (retry_loop env self (attempts self) 0 _ _ [] w3)
    as [[[[ip nt] ex]|msg] w4]; cbn [snd] in Hfs4.
  2:{ rewrite Hrun in H. discriminate. }
  destruct Hrun as (res' & w5 & Hrun & _ & _ & _ & _ & _ & _ & _ & _ & _ & Hfs5 & _).
  rewrite Hrun in H. inversion H; subst res' w5. clear H.
  assert (Hfs : fs w' = append_log (config self) res (fs w)).
  { rewrite Hfs5, Hfs4, Hfs3. reflexivity. }
  split; [exact Hfs|].
  intros Hen Hap Henc Hlim. rewrite Hfs.
  destruct (append_all_content (config self) [res] (fs w) Hen Hap) as (Hap' & _ & Hrec).
  { by apply List.Forall_cons. }
  cbn [append_all fold_left map] in Hap', Hrec.
  rewrite (read_last_logs_content _ _ _ Hap'), Hrec, slice_from_last by exact Hlim.
  rewrite <- firstn_rev, rev_app_distr. reflexivity.
Qed.

(** When no iteration moves the address (every signal is delivered and
    every sleep is one that [time.sleep] does), all R+1 signals are sent
    and the outcome says unchanged, with the note and the address
    resolved last. *)
Theorem exhausted_range_reports_unchanged (w : World) :
  (0 <= retries self)%Z ->
  (forall j, j < attempts self -> controller env (length (signals w) + j) port = None) ->
  (forall j, j < attempts self ->
      sleep_fits (Z.of_N (monotonic env (length (naps w) + j))) wait) ->
  (forall j, j < attempts self ->
      ~ (resolved env (S (tor_queries w) + j) proxy <> NOT_DEFINED
         /\ resolved env (S (tor_queries w) + j) proxy
            <> resolved env (tor_queries w) proxy)) ->
  exists res w',
    run env self w = (Done res, w')
    /\ changed res = false
    /\ note res = STAYED_NOTE
    /\ new_tor_ip res = resolved env (tor_queries w + attempts self) proxy
    /\ signals w' = replicate (attempts self) (port, None) ++ signals w
    /\ naps w' = replicate (attempts self) wait ++ naps w.
Proof.
  intros HR Hok Hnap Hno.
  destruct (run_outcomes env self w) as (w3 & (_ & Hs3 & Hq3 & _ & Hn3 & _) & Hrun).
  cbn [signals tor_queries naps with_tor_queries] in Hs3, Hq3, Hn3.
  assert (Hno' : forall j, j < attempts self ->
            moved (resolved env (tor_queries w) proxy)
              (resolved env (tor_queries w3 + j) proxy) = false).
  { intros j Hj. rewrite Hq3. apply not_moved_spec, Hno, Hj. }
  rewrite (retry_loop_exhausted env self (attempts self) 0 _ _ [] w3) in Hrun;
    [| by rewrite Hs3
     | rewrite Hn3; intros j Hj; apply sleep_error_fits, Hnap, Hj
     | exact Hno'].
  destruct Hrun as (res & w5 & Hrun & _ & Hnew & Hnote & Hch & _ & Hs5 & _ & Hn5 & _).
  destruct (iterations_world self (attempts self) w3) as (_ & Hs4 & _ & Hn4 & _).
  exists res, w5. split; [exact Hrun|].
  assert (Hpos : exists r, attempts self = S r).
  { unfold attempts. exists (Z.to_nat (retries self)). lia. }
  destruct Hpos as (r & Hr). rewrite Hr in *.
  assert (Hlast := Hno' r ltac:(lia)).
  split; [|split; [exact Hnote|split; [|split]]].
  - rewrite Hch. unfold moved in Hlast.
    destruct (negb (text_eqb _ NOT_DEFINED)), (negb (text_eqb (resolved env (tor_queries w) proxy) _));
      cbn in *; congruence.
  - rewrite Hnew, Hq3. f_equal. lia.
  - by rewrite Hs5, Hs4, Hs3.
  - by rewrite Hn5, Hn4, Hn3.
Qed.

(** When iteration i is the first to move the address (every signal up
    to then is delivered and every sleep up to then is one that
    [time.sleep] does), the run sends exactly i+1 signals, sleeps i+1
    times for the configured wait, and resolves the proxied address i+2
    times; the outcome carries the address of iteration i, and a note
    exactly when i is not the first iteration. *)
Theorem signals_until_break (w : World) (i : nat) :
  (Z.of_nat i <= retries self)%Z ->
  (forall j, j <= i -> controller env (length (signals w) + j) port = None) ->
  (forall j, j <= i -> sleep_fits (Z.of_N (monotonic env (length (naps w) + j))) wait) ->
  (forall j, j < i ->
      ~ (resolved env (S (tor_queries w) + j) proxy <> NOT_DEFINED
         /\ resolved env (S (tor_queries w) + j) proxy
            <> resolved env (tor_queries w) proxy)) ->
  resolved env (S (tor_queries w) + i) proxy <> NOT_DEFINED ->
  resolved env (S (tor_queries w) + i) proxy <> resolved env (tor_queries w) proxy ->
  exists res w',
    run env self w = (Done res, w')
    /\ signals w' = replicate (S i) (port, None) ++ signals w
    /\ naps w' = replicate (S i) wait ++ naps w
    /\ tor_queries w' = tor_queries w + i + 2
    /\ new_tor_ip res = resolved env (S (tor_queries w) + i) proxy
    /\ (note res = [] <-> i = 0).
Proof.
  intros Hi Hok Hnap Hno Hy1 Hy2.
  destruct (run_outcomes env self w) as (w3 & (_ & Hs3 & Hq3 & _ & Hn3 & _) & Hrun).
  cbn [signals tor_queries naps with_tor_queries] in Hs3, Hq3, Hn3.
  rewrite (retry_loop_breaks_in env self (attempts self) 0 _ _ [] w3 i) in Hrun.
  - destruct Hrun as (res & w5 & Hrun & _ & Hnew & Hnote & _ & _ & Hs5 & Hq5 & Hn5 & _).
    destruct (iterations_world self (S i) w3) as (_ & Hs4 & Hq4 & Hn4 & _).
    exists res, w5. split; [exact Hrun|].
    split; [by rewrite Hs5, Hs4, Hs3|]. split; [by rewrite Hn5, Hn4, Hn3|].
    split; [rewrite Hq5, Hq4, Hq3; lia|]. split; [by rewrite Hnew, Hq3|].
    rewrite Hnote. destruct i; [done|]. split; [discriminate | lia].
  - unfold attempts. lia.
  - by rewrite Hs3.
  - rewrite Hn3. intros j Hj. apply sleep_error_fits, Hnap, Hj.
  - rewrite Hq3. intros j Hj. apply not_moved_spec, Hno, Hj.
  - rewrite Hq3. by apply moved_spec.
Qed.

(** With a retry count below zero the range is empty: no signal is sent,
    nothing is slept, and the outcome has the pre-rotation address as the
    new address, changed = false and no note. *)
Theorem empty_range_sends_nothing (w : World) :
  (retries self < 0)%Z ->
  exists res w',
    run env self w = (Done res, w')
    /\ new_tor_ip res = old_tor_ip res
    /\ changed res = false
    /\ note res = []
    /\ signals w' = signals w
    /\ naps w' = naps w.
Proof.
  intros HR.
  destruct (run_outcomes env self w) as (w3 & (_ & Hs3 & _ & _ & Hn3 & _) & Hrun).
  cbn [signals naps with_tor_queries] in Hs3, Hn3.
  assert (Ha : attempts self = 0) by (unfold attempts; lia).
  rewrite Ha in Hrun. cbn [retry_loop ret] in Hrun.
  destruct Hrun as (res & w5 & Hrun & Hold & Hnew & Hnote & Hch & _ & Hs5 & _ & Hn5 & _).
  exists res, w5. split; [exact Hrun|]. split; [by rewrite Hold, Hnew|].
  split.
  { rewrite Hch. unfold text_eqb at 3. rewrite bool_decide_eq_true_2 by reflexivity.
    by rewrite andb_false_r. }
  split; [exact Hnote|]. split; [by rewrite Hs5 | by rewrite Hn5].
Qed.

(** With a wait that is negative or beyond 9223372036 seconds, the first
    sleep raises after the first signal was sent: the run fails with
    the message of [time.sleep], which is that of the [ValueError] for
    a negative wait down to -9223372036 seconds and that of the
    [OverflowError] for a wait beyond 9223372036 seconds in either
    direction; nothing is logged, nothing is posted and no sleep is
    done. *)
Theorem refused_wait_fails_after_one_signal (w : World) :
  (wait < 0 \/ 9223372036 < wait)%Z ->
  (0 <= retries self)%Z ->
  controller env (length (signals w)) port = None ->
  fst (run env self w)
  = Failure (if ((-9223372036 <=? wait) && (wait <=? 9223372036))%Z
             then py "sleep length must be non-negative"
             else py "timestamp too large to convert to C _PyTime_t")
  /\ signals (snd (run env self w)) = (port, None) :: signals w
  /\ fs (snd (run env self w)) = fs w
  /\ telegrams (snd (run env self w)) = telegrams w
  /\ naps (snd (run env self w)) = naps w.
Proof.
  intros Hw HR Hc.
  destruct (run_outcomes env self w) as (w3 & (Hf3 & Hs3 & _ & Ht3 & Hn3 & _) & Hrun).
  cbn [fs signals telegrams naps with_tor_queries] in Hf3, Hs3, Ht3, Hn3.
  assert (Hpos : exists r, attempts self = S r).
  { unfold attempts. exists (Z.to_nat (retries self)). lia. }
  destruct Hpos as (r & Hr). rewrite Hr, retry_loop_step, Hs3, Hc in Hrun.
  assert (Herr : forall c, sleep_error c wait
                 = Some (if ((-9223372036 <=? wait) && (wait <=? 9223372036))%Z
                         then py "sleep length must be non-negative"
                         else py "timestamp too large to convert to C _PyTime_t")).
  { intros c. unfold sleep_error.
    change (Z.quot PyTime_MIN SEC_TO_NS) with (-9223372036)%Z.
    change (Z.quot PyTime_MAX SEC_TO_NS) with 9223372036%Z.
    destruct (Z.ltb_spec wait (-9223372036)), (Z.ltb_spec 9223372036 wait),
      (Z.leb_spec (-9223372036) wait), (Z.leb_spec wait 9223372036),
      (Z.ltb_spec wait 0); cbn [orb andb]; (reflexivity || lia). }
  rewrite Herr in Hrun.
  rewrite Hrun. cbn [fst snd fs signals telegrams naps with_signals].
  by rewrite ?Hs3, ?Hf3, ?Ht3, ?Hn3.
Qed.

(** A run that fails logs nothing, posts nothing and stamps no outcome;
    a run that is done posts its announcement once when notifications are
    switched on and both credentials are set, and nothing otherwise. *)
Theorem notifies_once_when_done (w : World) :
  (forall msg w',
      run env self w = (Failure msg, w') ->
      fs w' = fs w /\ telegrams w' = telegrams w /\ clock_reads w' = clock_reads w)
  /\ (forall res w',
         run env self w = (Done res, w') ->
         telegrams w' =
           if posts (config self)
           then (telegram_chat_id (config self), announcement res) :: telegrams w
           else telegrams w).
Proof.
  destruct (run_outcomes env self w) as (w3 & (Hf3 & _ & _ & Ht3 & _ & Hc3) & Hrun).
  cbn [fs telegrams clock_reads with_tor_queries] in Hf3, Ht3, Hc3.
  pose proof (retry_loop_quiet env self (attempts self) 0
                (resolved env (tor_queries w) proxy)
                (resolved env (tor_queries w) proxy) [] w3) as (Hf4 & Ht4 & Hc4).
  destruct (retry_loop env self (attempts self) 0 _ _ [] w3)
    as [[[[ip nt] ex]|msg] w4]; cbn [snd] in Hf4, Ht4, Hc4.
  - destruct Hrun as (res & w5 & Hrun & _ & _ & _ & _ & _ & _ & _ & _ & _ & _ & Ht5).
    split; intros x w' H; rewrite Hrun in H; [discriminate|].
    inversion H; subst. by rewrite Ht5, Ht4, Ht3.
  - split; intros x w' H; rewrite Hrun in H; [|discriminate].
    inversion H; subst. by rewrite Hf4, Hf3, Ht4, Ht3, Hc4, Hc3.
Qed.

(** The note of an outcome is empty or the fixed note; it is the fixed
    note exactly when there was a first iteration and it did not move the
    address. *)
Theorem note_set_iff_first_try_failed (w w' : World) (res : ChangeResult) :
  run env self w = (Done res, w') ->
  (note res = [] \/ note res = STAYED_NOTE)
  /\ (note res = STAYED_NOTE <->
      0 < attempts self
      /\ ~ (resolved env (S (tor_queries w)) proxy <> NOT_DEFINED
            /\ resolved env (S (tor_queries w)) proxy
               <> resolved env (tor_queries w) proxy)).
Proof.
  intros H.
  destruct (run_outcomes env self w) as (w3 & (_ & _ & Hq3 & _) & Hrun).
  cbn [tor_queries with_tor_queries] in Hq3.
  destruct (retry_loop env self (attempts self) 0 _ _ [] w3)
    as [[[[ip nt] ex]|msg] w4] eqn:Hloop.
  2:{ rewrite Hrun in H. discriminate. }
  destruct Hrun as (res' & w5 & Hrun & _ & _ & Hnote & _).
  rewrite Hrun in H. inversion H; subst res' w5. clear H.
  apply retry_loop_note in Hloop. rewrite Hq3 in Hloop. rewrite Hnote.
  destruct Hloop as [(-> & Hor)|(-> & Hpos & Hm)].
  - split; [by left|]. split; [discriminate|].
    intros (Hpos & Hno). apply not_moved_spec in Hno.
    destruct Hor as [?|?]; [lia | congruence].
  - split; [by right|]. split; [|reflexivity].
    intros _. split; [exact Hpos | by apply not_moved_spec].
Qed.

End Runs.

(** The run on the addresses 1.1.1.1, 1.1.1.1, 2.2.2.2 logs its outcome
    into an absent log. *)
Lemma completed_run_is_logged_witness :
  read_last_logs (log_file default_config) 1
    (fs (snd (run steady_then_moved (worker 0 2) (start empty_fs))))
  = [log_entry moved_outcome].
Proof.
  apply (proj2 (completed_run_is_logged steady_then_moved (worker 0 2) (start empty_fs)
                  (snd (run steady_then_moved (worker 0 2) (start empty_fs)))
                  moved_outcome 1 ltac:(vm_compute; reflexivity)));
    [reflexivity | vm_compute; reflexivity | vm_compute; reflexivity | lia].
Defined.

(** Three iterations that all resolve 1.1.1.1 again. *)
Lemma exhausted_range_reports_unchanged_witness :
  exists res w',
    run never_moves (worker 0 2) (start empty_fs) = (Done res, w')
    /\ changed res = false
    /\ note res = STAYED_NOTE
    /\ new_tor_ip res = A1
    /\ signals w' = replicate 3 (9051%Z, None)
    /\ naps w' = replicate 3 0%Z.
Proof.
  apply (exhausted_range_reports_unchanged never_moves (worker 0 2) (start empty_fs)).
  - vm_compute. discriminate.
  - intros j _. cbn. by destruct j.
  - intros j Hj. vm_compute in Hj. split; [cbn; lia|]. cbn. lia.
  - intros j Hj [_ H]. apply H.
    destruct j as [|[|[|j]]]; [vm_compute; reflexivity.. | vm_compute in Hj; lia].
Defined.

(** The second iteration is the first to move the address: two signals,
    two sleeps, three resolutions. *)
Lemma signals_until_break_witness :
  exists res w',
    run steady_then_moved (worker 0 2) (start empty_fs) = (Done res, w')
    /\ signals w' = replicate 2 (9051%Z, None)
    /\ naps w' = replicate 2 0%Z
    /\ tor_queries w' = 3
    /\ new_tor_ip res = A2
    /\ (note res = [] <-> 1 = 0).
Proof.
  apply (signals_until_break steady_then_moved (worker 0 2) (start empty_fs) 1).
  - vm_compute. discriminate.
  - intros j _. cbn. by destruct j.
  - intros j Hj. split; [cbn; lia|]. cbn. lia.
  - intros j Hj. assert (j = 0) as -> by lia. vm_compute. intros [_ H]. by apply H.
  - vm_compute. discriminate.
  - vm_compute. discriminate.
Defined.

(** A worker built with retries = -1. *)
Lemma empty_range_sends_nothing_witness :
  exists res w',
    run steady_then_moved (worker 8 (-1)) (start empty_fs) = (Done res, w')
    /\ new_tor_ip res = old_tor_ip res
    /\ changed res = false
    /\ note res = []
    /\ signals w' = []
    /\ naps w' = [].
Proof.
  apply (empty_range_sends_nothing steady_then_moved (worker 8 (-1)) (start empty_fs)).
  vm_compute. reflexivity.
Defined.

(** A worker built with a wait of ten thousand million seconds. *)
Lemma refused_wait_fails_after_one_signal_witness :
  let out := run steady_then_moved (worker 10000000000 2) (start empty_fs) in
  fst out = Failure (py "timestamp too large to convert to C _PyTime_t")
  /\ signals (snd out) = [(9051%Z, None)]
  /\ fs (snd out) = empty_fs
  /\ telegrams (snd out) = []
  /\ naps (snd out) = [].
Proof.
  apply (refused_wait_fails_after_one_signal steady_then_moved (worker 10000000000 2)
           (start empty_fs)).
  - right. vm_compute. reflexivity.
  - vm_compute. discriminate.
  - vm_compute. reflexivity.
Defined.

(** With notifications switched on, the run on the addresses 1.1.1.1,
    1.1.1.1, 2.2.2.2 posts one message. *)
Lemma notifies_once_when_done_witness :
  telegrams (snd (run steady_then_moved notifying_worker (start empty_fs)))
  = [(py "42", announcement moved_outcome)].
Proof.
  apply (proj2 (notifies_once_when_done steady_then_moved notifying_worker
                  (start empty_fs)) moved_outcome).
  vm_compute. reflexivity.
Defined.

(** The first iteration of that run resolved 1.1.1.1 again. *)
Lemma note_set_iff_first_try_failed_witness :
  note moved_outcome = [] \/ note moved_outcome = STAYED_NOTE.
Proof.
  apply (proj1 (note_set_iff_first_try_failed steady_then_moved (worker 0 2)
                  (start empty_fs)
                  (snd (run steady_then_moved (worker 0 2) (start empty_fs)))
                  moved_outcome ltac:(vm_compute; reflexivity))).
Defined.

(** ** [ui/dialogs.py]: the rows of checked URLs *)

(** The URL shown in a row is never longer than 60 characters: a URL of
    at most 60 characters is shown whole, a longer one as its first 57
    characters and three dots. *)
Theorem displayed_url_fits (u : text) :
  length (display_url u) <= 60
  /\ (length u <= 60 -> display_url u = u)
  /\ (60 < length u ->
      display_url u = take 57 u ++ py "..." /\ length (display_url u) = 60).
Proof.
  unfold display_url. destruct (Nat.ltb_spec 60 (length u)) as [Hlong|Hshort].
  - assert (Hlen : length (take 57 u ++ py "...") = 60).
    { rewrite length_app, length_take. change (length (py "...")) with 3. lia. }
    split; [lia|]. split; [lia|]. by intros _.
  - split; [exact Hshort|]. split; [reflexivity | lia].
Qed.

(** A URL of 61 characters. *)
Lemma displayed_url_fits_witness :
  display_url (replicate 61 97%N) = replicate 57 97%N ++ py "..."
  /\ length (display_url (replicate 61 97%N)) = 60.
Proof.
  apply (proj2 (proj2 (displayed_url_fits (replicate 61 97%N)))).
  vm_compute. lia.
Defined.

Lemma add_all_rows (results : list URLReputationResult) :
  forall d,
    url_results (fold_left _add_url_to_list results d) = url_results d ++ results
    /\ url_list (fold_left _add_url_to_list results d)
       = rev (map (fun r => (item_text r, snd (status_of r), r)) results) ++ url_list d.
Proof.
  induction results as [|r results IH]; intros d.
  - cbn. by rewrite app_nil_r.
  - cbn [fold_left]. destruct (IH (_add_url_to_list d r)) as [H1 H2].
    rewrite H1, H2. cbn [_add_url_to_list url_results url_list map rev].
    by rewrite <- !app_assoc.
Qed.

(** After any number of checks the dialog keeps the results in the order
    of the checks and shows one row per result, the newest first, each
    row with the text and the colour of the result stored in it. *)
Theorem rows_mirror_results (results : list URLReputationResult) :
  url_results (fold_left _add_url_to_list results empty_dialog) = results
  /\ map snd (url_list (fold_left _add_url_to_list results empty_dialog)) = rev results
  /\ Forall (fun row => fst row = (item_text (snd row), snd (status_of (snd row))))
       (url_list (fold_left _add_url_to_list results empty_dialog)).
Proof.
  destruct (add_all_rows results empty_dialog) as [H1 H2].
  rewrite H1, H2. cbn [empty_dialog url_results url_list app]. rewrite app_nil_r.
  split; [reflexivity|]. split.
  - rewrite map_rev, map_map. cbn [snd]. by rewrite map_id.
  - apply Forall_rev, Forall_map. by apply Forall_true.
Qed.

(** The status shown for a verdict of [check_url_reputation] follows its
    level: clean is shown as safe, suspicious and malicious as such, and
    an error or unknown verdict as unknown. *)
Theorem status_follows_level (vt : VirusTotal) (target api_key : text)
        (v : URLReputationResult) :
  check_url_reputation vt target api_key = Some v ->
  (threat_level v = py "clean" -> status_of v = ([9989%N] ++ py " SAFE", py "#00ff88"))
  /\ (threat_level v = py "suspicious" ->
      status_of v = ([9888%N; 65039%N] ++ py " SUSPICIOUS", py "#ffd700"))
  /\ (threat_level v = py "malicious" ->
      status_of v = ([10060%N] ++ py " MALICIOUS", py "#ff6b9d"))
  /\ (threat_level v = py "error" \/ threat_level v = py "unknown" ->
      status_of v = ([10067%N] ++ py " UNKNOWN", py "#ffffff")).
Proof.
  intros H. verdict_cases H; unfold status_of;
    cbn [is_safe threat_level error_verdict];
    repeat split; intros Hl; try discriminate Hl;
    try (destruct Hl as [Hl|Hl]; discriminate Hl); reflexivity.
Qed.

(** A timeout is shown as unknown. *)
Lemma status_follows_level_witness :
  status_of (error_verdict (py "http://example.com/") (py "VirusTotal API timeout"))
  = ([10067%N] ++ py " UNKNOWN", py "#ffffff").
Proof.
  apply (proj2 (proj2 (proj2 (status_follows_level vt_timeout (py "http://example.com/")
                                (py "0123abcd") _ ltac:(vm_compute; reflexivity))))).
  left. reflexivity.
Defined.
